(** * EventRpcClient: the reconnecting pub/sub client of fastapi_websocket_rpc

    A shallow embedding of [fastapi_websocket_rpc/pubsub/event_rpc_client.py]:
    the retry decorator [apply_retry], the client object [EventRpcClient]
    with its registry ([subscribe], [on_connect]), the connection lifecycle
    ([run], [_on_connection]) and the event dispatcher ([act_on_topic]).

    Python objects are references.  The only object of the client that can
    be shared with another client (or with the caller) is the topic list, so
    topic lists live in an explicit store and a client holds their address.
    The callback dict and the hook list are created inside [__init__] and
    are owned by the client; they are plain fields.

    Coroutines run on one event loop.  What the outside world does (the
    transport, the broker, the user's coroutines, and when the gathered
    connect hooks end) is given by an environment, and everything the client
    does to the outside world is recorded in a trace, each entry together
    with the value [_running] had at that moment. *)

From stdpp Require Import gmap strings list fin_maps sorting.

Open Scope string_scope.
Open Scope list_scope.

(** ** Values, faults and outcomes *)

Abbreviation Topic := string (only parsing).

(** A user coroutine function ([callback] in the source), known by identity. *)
Inductive Coroutine := coro (id : nat).

(** The payload of an event; [data=None] is the default of [act_on_topic]. *)
Inductive Data := DNone | DStr (s : string) | DInt (z : Z).

(** Exceptions by the classes the [except] clauses of [run] tell apart.
    [ConnectionClosed] is a subclass of [WebSocketException], which is a
    subclass of [Exception]; [WebSocketException] below stands for the
    instances that are not [ConnectionClosed], and so on down the list.
    [RetryError] is what tenacity raises when a bounded policy gives up. *)
Inductive exn :=
| ConnectionClosed
| WebSocketException
| Exception (name : string)
| BaseException (name : string)
| RetryError (last : exn).

Inductive outcome (A : Type) :=
| Returned (a : A)
| Raised (e : exn).
Arguments Returned {A} a.
Arguments Raised {A} e.

(** ** The trace *)

Inductive level := INFO | ERROR | CRITICAL.

Inductive Wait := wait_none | wait_fixed (seconds : nat) | wait_random_exponential (max : nat).
Inductive Stop := stop_never | stop_after_attempt (n : nat).

Inductive Event :=
| Log (lvl : level) (msg : string)
| Acquire (uri : string)               (* WebSocketRpcClient(uri, ...).__aenter__ *)
| Release                              (* WebSocketRpcClient.__aexit__ *)
| RemoteSubscribe (topics : list Topic) (* client.channel.other.subscribe(topics=...) *)
| Hook (callback : Coroutine)          (* callback() of a connect hook: it starts *)
| HookEnd (callback : Coroutine)       (* a connect hook ends, while gathered *)
| WaitOnReader                         (* client.wait_on_reader() *)
| Callback (callback : Coroutine) (data : Data)  (* callback(data=data) *)
| Sleep (w : Wait) (attempt_number : nat).       (* tenacity's backoff *)

(** One entry of the trace: what happened, and [self._running] when it did. *)
Record Obs := { running_then : bool; ev : Event }.

(** ** The client object *)

Abbreviation loc := nat (only parsing).

(** tenacity's keyword arguments, the ones that decide the control flow. *)
Record Retrying := {
  wait : Wait;
  stop : Stop;
  retry : exn -> bool;
  reraise : bool;
}.

(** [retry_config]: [False] or a dict of tenacity keyword arguments. *)
Inductive RetryConfig :=
| RetryFalse
| RetryKwargs (kw : Retrying).

Inductive Methods := RpcEventClientMethods | MethodsClass (name : string).

Record EventRpcClient := {
  _methods : Methods;
  _topics : loc;
  _callbacks : gmap string Coroutine;
  _on_connect_callbacks : list Coroutine;
  _running : bool;
  _connect_kwargs : list (string * Data);
  _retry_config : RetryConfig;
}.

Definition set_running (b : bool) (self : EventRpcClient) : EventRpcClient :=
  {| _methods := _methods self; _topics := _topics self;
     _callbacks := _callbacks self;
     _on_connect_callbacks := _on_connect_callbacks self;
     _running := b;
     _connect_kwargs := _connect_kwargs self;
     _retry_config := _retry_config self |}.

Definition set_callbacks (m : gmap string Coroutine) (self : EventRpcClient) : EventRpcClient :=
  {| _methods := _methods self; _topics := _topics self;
     _callbacks := m;
     _on_connect_callbacks := _on_connect_callbacks self;
     _running := _running self;
     _connect_kwargs := _connect_kwargs self;
     _retry_config := _retry_config self |}.

Definition set_on_connect_callbacks (l : list Coroutine) (self : EventRpcClient) : EventRpcClient :=
  {| _methods := _methods self; _topics := _topics self;
     _callbacks := _callbacks self;
     _on_connect_callbacks := l;
     _running := _running self;
     _connect_kwargs := _connect_kwargs self;
     _retry_config := _retry_config self |}.

(** ** The store of topic lists *)

(** The list objects reachable from clients, by address.  Reading an address
    that holds nothing gives the empty list. *)
Abbreviation heap := (gmap nat (list string)) (only parsing).

(** The list object created once, when [def __init__(self, topics=[], ...)]
    is evaluated: the default value of [topics]. *)
Definition default_topics : loc := 0.

(** The store right after the module is imported. *)
Definition module_heap : heap := {[ default_topics := [] ]}.

Definition topics_of (self : EventRpcClient) (h : heap) : list Topic :=
  h !!! _topics self.

(** tenacity's defaults for the keywords the dict leaves out: never stop,
    retry on every [Exception], raise [RetryError] when giving up. *)
Definition retry_if_exception_type (e : exn) : bool :=
  match e with
  | BaseException _ => false
  | _ => true
  end.

Definition default_retry_config : RetryConfig :=
  RetryKwargs {| wait := wait_random_exponential 45; stop := stop_never;
                 retry := retry_if_exception_type; reraise := false |}.

(** [EventRpcClient.__init__].  [topics = None] is the call that leaves the
    argument out, and then [self._topics] is the default list object
    itself, not a copy of it. *)
Definition __init__ (topics : option loc) (methods_class : option Methods)
    (retry_config : option RetryConfig) (kwargs : list (string * Data)) : EventRpcClient :=
  {| _methods := match methods_class with Some m => m | None => RpcEventClientMethods end;
     _topics := match topics with Some l => l | None => default_topics end;
     _callbacks := ∅;
     _on_connect_callbacks := [];
     _running := false;
     _connect_kwargs := kwargs;
     _retry_config := match retry_config with Some c => c | None => default_retry_config end |}.

(** [EventRpcClient.subscribe]: [self._topics.append(topic)] mutates the list
    object in the store; [self._callbacks[topic] = callback] overwrites. *)
Definition subscribe (topic : Topic) (callback : Coroutine)
    (self : EventRpcClient) (h : heap) : EventRpcClient * heap :=
  if negb (_running self) then
    (set_callbacks (<[topic := callback]> (_callbacks self)) self,
     <[_topics self := (h !!! _topics self) ++ [topic]]> h)
  else (self, h).

(** [EventRpcClient.on_connect]. *)
Definition on_connect (callback : Coroutine) (self : EventRpcClient) : EventRpcClient :=
  set_on_connect_callbacks (_on_connect_callbacks self ++ [callback]) self.

(** A run of [subscribe] calls, in order. *)
Fixpoint subscribe_all (subs : list (Topic * Coroutine))
    (self : EventRpcClient) (h : heap) : EventRpcClient * heap :=
  match subs with
  | [] => (self, h)
  | (t, cb) :: rest =>
      let '(self', h') := subscribe t cb self h in subscribe_all rest self' h'
  end.

(** ** Coroutine bodies

    A coroutine of the client, run to completion: from the client object
    before to how it ended, the client object after and what it did. *)

Definition M (A : Type) : Type :=
  EventRpcClient -> outcome A * EventRpcClient * list Obs.

#[export] Instance M_ret : MRet M := fun A a self => (Returned a, self, []).

#[export] Instance M_bind : MBind M := fun A B f m self =>
  let '(r, self1, t1) := m self in
  match r with
  | Returned a => let '(r2, self2, t2) := f a self1 in (r2, self2, t1 ++ t2)
  | Raised e => (Raised e, self1, t1)
  end.

Definition raise {A} (e : exn) : M A := fun self => (Raised e, self, []).

Definition read {A} (field : EventRpcClient -> A) : M A :=
  fun self => (Returned (field self), self, []).

Definition emit (e : Event) : M unit :=
  fun self => (Returned tt, self, [{| running_then := _running self; ev := e |}]).

(** [await] on something of the outside world: it is recorded, and it ends
    the way the environment says. *)
Definition await {A} (e : Event) (r : outcome A) : M A :=
  fun self => (r, self, [{| running_then := _running self; ev := e |}]).

(** [self._running = b]. *)
Definition assign_running (b : bool) : M unit :=
  fun self => (Returned tt, set_running b self, []).

(** [try: body / except ...: handler]. *)
Definition try_except {A} (body : M A) (handler : exn -> M A) : M A :=
  fun self =>
    let '(r, self1, t1) := body self in
    match r with
    | Returned a => (Returned a, self1, t1)
    | Raised e => let '(r2, self2, t2) := handler e self1 in (r2, self2, t1 ++ t2)
    end.

(** [try: body / finally: cleanup]: the cleanup runs however the body ended;
    the body's outcome stands unless the cleanup itself raises. *)
Definition try_finally {A} (body : M A) (cleanup : M unit) : M A :=
  fun self =>
    let '(r, self1, t1) := body self in
    let '(rc, self2, t2) := cleanup self1 in
    match rc with
    | Returned _ => (r, self2, t1 ++ t2)
    | Raised e => (Raised e, self2, t1 ++ t2)
    end.

(** Truth value of a list in a condition: [if self._topics:]. *)
Definition truthy {A} (l : list A) : bool :=
  match l with [] => false | _ :: _ => true end.

(** ** The outside world *)

(** The handle [async with WebSocketRpcClient(...) as client] binds. *)
Record WebSocketRpcClient := { uri : string }.

(** What the collaborators do during one invocation of [run]. *)
Record Env := {
  aenter : outcome (option WebSocketRpcClient);  (* acquiring the transport *)
  remote_subscribe : list Topic -> outcome unit;  (* the broker's subscribe *)
  call_hook : Coroutine -> outcome unit;          (* a connect hook, awaited *)
  hook_ends_at : Coroutine -> nat;                (* when it ends, on the loop's clock *)
  reader : outcome unit;                          (* wait_on_reader() *)
}.

(** Modelled from the spec: the transport collaborator [WebSocketRpcClient]
    is not part of the source.  The spec has it yield "a connection handle
    (or null) usable as a scoped resource (guaranteed release on exit)":
    a fault of the acquisition propagates and nothing is released; otherwise
    the body runs, the handle is released however the body ended, and the
    body's outcome stands. *)
Definition async_with {A B} (enter_event : Event) (enter : outcome A) (body : A -> M B) : M B :=
  fun self =>
    let '(r, self1, t1) := await enter_event enter self in
    match r with
    | Raised e => (Raised e, self1, t1)
    | Returned a =>
        let '(r2, self2, t2) := body a self1 in
        (r2, self2, t1 ++ t2 ++ [{| running_then := _running self2; ev := Release |}])
    end.

(** The result [asyncio.gather] gives to the coroutine awaiting it
    (with [return_exceptions] left at [False]), from the outcomes of the
    awaitables in the order in which they end: the first exception raised,
    and no other. *)
Fixpoint first_raised (rs : list (outcome unit)) : outcome unit :=
  match rs with
  | [] => Returned tt
  | Returned _ :: rest => first_raised rest
  | Raised e :: _ => Raised e
  end.

(** The gathered hooks in the order in which they end: by [hook_ends_at],
    and in the order of the list for hooks that end at the same time. *)
Fixpoint insert_in_time (env : Env) (cb : Coroutine) (sorted : list Coroutine) : list Coroutine :=
  match sorted with
  | [] => [cb]
  | x :: rest =>
      if Nat.leb (hook_ends_at env cb) (hook_ends_at env x)
      then cb :: x :: rest
      else x :: insert_in_time env cb rest
  end.

Fixpoint in_time_order (env : Env) (aws : list Coroutine) : list Coroutine :=
  match aws with
  | [] => []
  | cb :: rest => insert_in_time env cb (in_time_order env rest)
  end.

(** Of hooks listed in the order in which they end, the ones that have ended
    when [gather] hands back to the coroutine awaiting it: all of them up to
    the first that raises, that one included.  The hooks after it are left
    running. *)
Fixpoint ended_in_time (env : Env) (sorted : list Coroutine) : list Coroutine :=
  match sorted with
  | [] => []
  | cb :: rest =>
      match call_hook env cb with
      | Raised _ => [cb]
      | Returned _ => cb :: ended_in_time env rest
      end
  end.

Definition gather_result (env : Env) (aws : list Coroutine) : outcome unit :=
  first_raised (map (call_hook env) (in_time_order env aws)).

Definition gather_trace (b : bool) (env : Env) (aws : list Coroutine) : list Obs :=
  map (fun cb => {| running_then := b; ev := Hook cb |}) aws
  ++ map (fun cb => {| running_then := b; ev := HookEnd cb |})
         (ended_in_time env (in_time_order env aws)).

(** [asyncio.gather] over [callback()] for each callback: every coroutine is
    started, in the order of the list, before the result is awaited; an
    awaitable that raises does not stop the others from starting.  The hooks
    then run concurrently and end in the order of the loop's clock.  The
    coroutine awaiting the result gets the first exception raised in time,
    when it is raised: the hooks that have not ended by then are left
    running, and their end is no part of what the awaiting coroutine sees.
    Without an exception it resumes when all hooks have ended. *)
Definition gather (env : Env) (aws : list Coroutine) : M unit :=
  fun self => (gather_result env aws, self, gather_trace (_running self) env aws).

(** ** The connection lifecycle *)

(** [EventRpcClient._on_connection]. *)
Definition _on_connection (client : WebSocketRpcClient) (env : Env) (h : heap) : M unit :=
  emit (Log INFO "connected to server") ;;
  topics ← read (fun self => topics_of self h);
  (if truthy topics
   then await (RemoteSubscribe topics) (remote_subscribe env topics)
   else mret tt) ;;
  callbacks ← read _on_connect_callbacks;
  if truthy callbacks then gather env callbacks else mret tt.

(** The [except] clauses of [run], tried in order; each logs and re-raises.
    A [BaseException] that is no [Exception] matches none of them. *)
Definition run_handlers (e : exn) : M unit :=
  match e with
  | ConnectionClosed => emit (Log ERROR "RPC connection lost") ;; raise e
  | WebSocketException => emit (Log INFO "RPC connection failed") ;; raise e
  | Exception _ | RetryError _ => emit (Log CRITICAL "RPC Uncaught Error") ;; raise e
  | BaseException _ => raise e
  end.

(** The body of [EventRpcClient.run], before [@apply_retry] wraps it.
    [args] is [(uri, wait_on_reader)]. *)
Definition run_func (args : string * bool) (env : Env) (h : heap) : M unit :=
  emit (Log INFO "trying to connect") ;;
  async_with (Acquire (fst args)) (aenter env) (fun client =>
    try_finally
      (try_except
         (match client with
          | Some c =>
              assign_running true ;;
              _on_connection c env h ;;
              if snd args then await WaitOnReader (reader env) else mret tt
          | None => mret tt
          end)
         run_handlers)
      (assign_running false)).

(** ** The retry decorator *)

(** An operation that can be decorated: a method of the client. *)
Definition Op (Args T : Type) : Type := Args -> Env -> heap -> M T.

(** One invocation of the wrapped operation by the decorator: what it did,
    how it ended, and the backoff that followed it (a [Sleep], or nothing). *)
Record Attempt (T : Type) := {
  invocation : list Obs;
  ended : outcome T;
  backoff : list Obs;
}.
Arguments invocation {T} _.
Arguments ended {T} _.
Arguments backoff {T} _.

(** What a decorated call did: its invocations of the wrapped operation, in
    order, and the way the call ended; [result = None] when the call was
    still retrying after [fuel] invocations. *)
Record Retried (T : Type) := {
  result : option (outcome T);
  self_after : EventRpcClient;
  attempts : list (Attempt T);
}.
Arguments result {T} _.
Arguments self_after {T} _.
Arguments attempts {T} _.

Definition trace_of {T} (r : Retried T) : list Obs :=
  concat (map (fun a => invocation a ++ backoff a) (attempts r)).

(** A call that goes through to the operation once and ends as it does. *)
Definition once {T} (res : outcome T * EventRpcClient * list Obs) (r : outcome T) : Retried T :=
  {| result := Some r; self_after := res.1.2;
     attempts := [{| invocation := res.2; ended := res.1.1; backoff := [] |}] |}.

Definition stop_now (s : Stop) (attempt_number : nat) : bool :=
  match s with
  | stop_never => false
  | stop_after_attempt n => Nat.leb n attempt_number
  end.

(** tenacity's [retry] decorator with keywords [kw], applied to [fn]: call
    [fn]; when it raises an exception the [retry] predicate accepts, give up
    if [stop] says so, otherwise sleep and call [fn] again (on the same
    client object, with the same arguments).  The [n]-th invocation meets
    [envs n]; tenacity counts attempts from 1. *)
Fixpoint retrying {Args T} (kw : Retrying) (fn : Op Args T) (fuel attempt_number : nat)
    (args : Args) (envs : nat -> Env) (h : heap) (self : EventRpcClient) : Retried T :=
  match fuel with
  | 0 => {| result := None; self_after := self; attempts := [] |}
  | S fuel' =>
      let res := fn args (envs attempt_number) h self in
      match res.1.1 with
      | Returned v => once res (Returned v)
      | Raised e =>
          if retry kw e then
            if stop_now (stop kw) attempt_number then
              once res (Raised (if reraise kw then e else RetryError e))
            else
              let rest := retrying kw fn fuel' (S attempt_number) args envs h res.1.2 in
              {| result := result rest; self_after := self_after rest;
                 attempts :=
                   {| invocation := res.2; ended := res.1.1;
                      backoff := [{| running_then := _running res.1.2;
                                     ev := Sleep (wait kw) attempt_number |}] |}
                   :: attempts rest |}
          else once res (Raised e)
      end
  end.

(** [apply_retry(func)], that is [wrapped_with_retries]: with
    [self._retry_config is False] the function itself is called, otherwise
    the function decorated by tenacity. *)
Definition apply_retry {Args T} (func : Op Args T)
    (args : Args) (envs : nat -> Env) (h : heap) (fuel : nat) (self : EventRpcClient) : Retried T :=
  match _retry_config self with
  | RetryFalse =>
      let res := func args (envs 1) h self in once res res.1.1
  | RetryKwargs kw => retrying kw func fuel 1 args envs h self
  end.

(** [EventRpcClient.run], as decorated. *)
Definition run : string * bool -> (nat -> Env) -> heap -> nat -> EventRpcClient -> Retried unit :=
  apply_retry run_func.

(** [EventRpcClient.start_client]: the event loop runs [self.run(server_uri,
    run_sync)] until it completes. *)
Definition start_client (server_uri : string) (run_sync : bool) :
    (nat -> Env) -> heap -> nat -> EventRpcClient -> Retried unit :=
  run (server_uri, run_sync).

(** [EventRpcClient.start_client_async]. *)
Definition start_client_async (server_uri : string) :
    (nat -> Env) -> heap -> nat -> EventRpcClient -> Retried unit :=
  start_client server_uri false.

(** ** The event dispatcher *)

(** [EventRpcClient.act_on_topic]; [call] is what the user's callback does
    when awaited with [data]. *)
Definition act_on_topic (topic : Topic) (data : Data)
    (call : Coroutine -> Data -> outcome unit) : M unit :=
  fun self =>
    match _callbacks self !! topic with
    | Some callback => await (Callback callback data) (call callback data) self
    | None => (mret tt : M unit) self
    end.

(** ** Reading a trace *)

(** The arguments of the remote subscribe calls of a trace, in order. *)
Definition subscribe_calls (t : list Obs) : list (list Topic) :=
  omap (fun o => match ev o with RemoteSubscribe ts => Some ts | _ => None end) t.

(** The connect hooks invoked in a trace, in order. *)
Definition hooks_run (t : list Obs) : list Coroutine :=
  omap (fun o => match ev o with Hook cb => Some cb | _ => None end) t.

(** The transport acquisitions of a trace. *)
Definition acquisitions (t : list Obs) : list string :=
  omap (fun o => match ev o with Acquire u => Some u | _ => None end) t.

(** The faults the connect hooks raise in an environment, in list order. *)
Definition hook_faults (env : Env) (callbacks : list Coroutine) : list exn :=
  omap (fun cb => match call_hook env cb with Raised e => Some e | Returned _ => None end)
       callbacks.


(** The handshake proper: the batched subscribe call and the connect hooks. *)
Definition handshake_event (e : Event) : bool :=
  match e with RemoteSubscribe _ | Hook _ => true | _ => false end.

(** ** Two readings of the lifecycle that the code does not follow *)

(** "The flag is never true while the batched subscribe call or the connect
    hooks are executing": in an invocation of [run], each of them is
    observed with the flag still false. *)
Definition running_only_after_handshake
    (args : string * bool) (env : Env) (h : heap) (self : EventRpcClient) : Prop :=
  Forall (fun o => handshake_event (ev o) = true -> running_then o = false)
         (run_func args env h self).2.


(** The flag as [run] keeps it: set before the handshake, so true during
    the batched subscribe call, the connect hooks and the wait on the reader;
    cleared by the cleanup, so false when the transport is released. *)
Definition flag_as_kept (o : Obs) : Prop :=
  match ev o with
  | RemoteSubscribe _ | Hook _ | WaitOnReader => running_then o = true
  | Release => running_then o = false
  | _ => True
  end.

(** What follows the handshake in an invocation: no subscribe call and no
    hook, the wait with the flag set, the release with the flag cleared. *)
Definition after_handshake (o : Obs) : Prop :=
  handshake_event (ev o) = false /\ flag_as_kept o.

(** ** Scenarios *)

Definition endpoint : string := "ws://localhost:8000/ws/test-client1".
Definition server : WebSocketRpcClient := {| uri := endpoint |}.

(** A connection that is established, goes through the handshake and is
    lost afterwards. *)
Definition env_lost : Env :=
  {| aenter := Returned (Some server);
     remote_subscribe := fun _ => Returned tt;
     call_hook := fun _ => Returned tt;
     hook_ends_at := fun _ => 0;
     reader := Raised ConnectionClosed |}.

(** A connection that is established and closed in good order. *)
Definition env_served : Env :=
  {| aenter := Returned (Some server);
     remote_subscribe := fun _ => Returned tt;
     call_hook := fun _ => Returned tt;
     hook_ends_at := fun _ => 0;
     reader := Returned tt |}.

(** A server that cannot be reached. *)
Definition env_refused : Env :=
  {| aenter := Raised (Exception "ConnectionRefusedError");
     remote_subscribe := fun _ => Returned tt;
     call_hook := fun _ => Returned tt;
     hook_ends_at := fun _ => 0;
     reader := Returned tt |}.

(** A transport that hands out no connection. *)
Definition env_null : Env :=
  {| aenter := Returned None;
     remote_subscribe := fun _ => Returned tt;
     call_hook := fun _ => Returned tt;
     hook_ends_at := fun _ => 0;
     reader := Returned tt |}.

(** Two connect hooks that both fault, each in its own way; the second of
    the list faults first. *)
Definition env_hooks_fault : Env :=
  {| aenter := Returned (Some server);
     remote_subscribe := fun _ => Returned tt;
     call_hook := fun cb =>
       match cb with
       | coro 7 => Raised ConnectionClosed
       | coro 8 => Raised (Exception "boom")
       | _ => Returned tt
       end;
     hook_ends_at := fun cb =>
       match cb with
       | coro 7 => 2
       | coro 8 => 1
       | _ => 0
       end;
     reader := Returned tt |}.

(** Lost once, served on the reconnect. *)
Definition envs_reconnect (attempt_number : nat) : Env :=
  match attempt_number with
  | 1 => env_lost
  | _ => env_served
  end.

(** The usage of the class docstring: a client without topics, two
    subscriptions, two connect hooks. *)
Definition docstring_subs : list (string * Coroutine) :=
  [("guns", coro 1); ("germs", coro 2)].

Definition docstring_client (retry_config : option RetryConfig) : EventRpcClient :=
  on_connect (coro 8) (on_connect (coro 7)
    (subscribe_all docstring_subs (__init__ None None retry_config []) module_heap).1).

Definition docstring_heap : heap :=
  (subscribe_all docstring_subs (__init__ None None None []) module_heap).2.

(** What the user's callbacks do when awaited. *)
Definition quiet_callbacks (callback : Coroutine) (data : Data) : outcome unit :=
  Returned tt.

(** ** More readings of a trace, and longer scenarios *)

(** The waits on the reader of a trace, each with the flag it met. *)
Definition reader_waits (t : list Obs) : list bool :=
  omap (fun o => match ev o with WaitOnReader => Some (running_then o) | _ => None end) t.

(** The releases of the transport of a trace, each with the flag it met. *)
Definition releases (t : list Obs) : list bool :=
  omap (fun o => match ev o with Release => Some (running_then o) | _ => None end) t.

(** The log lines of a trace. *)
Definition logged (t : list Obs) : list (level * string) :=
  omap (fun o => match ev o with Log lvl msg => Some (lvl, msg) | _ => None end) t.


(** The attempt numbers tenacity slept after. *)
Definition sleeps (t : list Obs) : list nat :=
  omap (fun o => match ev o with Sleep _ n => Some n | _ => None end) t.

(** A run of [on_connect] calls, in order. *)
Fixpoint on_connect_all (callbacks : list Coroutine) (self : EventRpcClient) : EventRpcClient :=
  match callbacks with
  | [] => self
  | cb :: rest => on_connect_all rest (on_connect cb self)
  end.

(** The callback of the last pair of [subs] that names [topic], if any. *)
Fixpoint last_registered (topic : string) (subs : list (string * Coroutine)) : option Coroutine :=
  match subs with
  | [] => None
  | (t, cb) :: rest =>
      match last_registered topic rest with
      | Some later => Some later
      | None => if decide (t = topic) then Some cb else None
      end
  end.

(** A broker that rejects the subscription. *)
Definition env_subscribe_fault : Env :=
  {| aenter := Returned (Some server);
     remote_subscribe := fun _ => Raised WebSocketException;
     call_hook := fun _ => Returned tt;
     hook_ends_at := fun _ => 0;
     reader := Returned tt |}.

(** A connection whose reader is cancelled. *)
Definition env_cancelled : Env :=
  {| aenter := Returned (Some server);
     remote_subscribe := fun _ => Returned tt;
     call_hook := fun _ => Returned tt;
     hook_ends_at := fun _ => 0;
     reader := Raised (BaseException "CancelledError") |}.

(** Refused twice, lost once, served on the fourth attempt. *)
Definition envs_flaky (attempt_number : nat) : Env :=
  match attempt_number with
  | 1 | 2 => env_refused
  | 3 => env_lost
  | _ => env_served
  end.

(** * Properties *)

(** ** The registry *)

Section Registry.
Implicit Types (self : EventRpcClient) (h : gmap nat (list string)).
Implicit Types (topic : string) (callback : Coroutine).

Lemma subscribe_idle topic callback self h :
  _running self = false ->
  subscribe topic callback self h =
    (set_callbacks (<[topic := callback]> (_callbacks self)) self,
     <[_topics self := topics_of self h ++ [topic]]> h).
Proof. intros Hr. unfold subscribe, topics_of. by rewrite Hr. Qed.

Lemma subscribe_running topic callback self h :
  _running self = true -> subscribe topic callback self h = (self, h).
Proof. intros Hr. unfold subscribe. by rewrite Hr. Qed.

Lemma topics_of_set_callbacks m self h :
  topics_of (set_callbacks m self) h = topics_of self h.
Proof. reflexivity. Qed.

Lemma topics_of_set_running b self h :
  topics_of (set_running b self) h = topics_of self h.
Proof. reflexivity. Qed.

(** Appending through one address is seen through every client that holds
    that address. *)
Lemma topics_of_append self other h topic :
  _topics other = _topics self ->
  topics_of other (<[_topics self := topics_of self h ++ [topic]]> h)
  = topics_of other h ++ [topic].
Proof.
  intros Heq. unfold topics_of. rewrite Heq.
  by rewrite lookup_total_insert_eq.
Qed.

Lemma subscribe_all_topics subs : forall self h,
  _running self = false ->
  _running (subscribe_all subs self h).1 = false /\
  _topics (subscribe_all subs self h).1 = _topics self /\
  _on_connect_callbacks (subscribe_all subs self h).1 = _on_connect_callbacks self /\
  topics_of (subscribe_all subs self h).1 (subscribe_all subs self h).2
  = topics_of self h ++ map fst subs.
Proof.
  induction subs as [|[t cb] rest IH]; intros self h Hr; simpl.
  - by rewrite app_nil_r.
  - rewrite (subscribe_idle _ _ _ _ Hr).
    destruct (IH (set_callbacks (<[t := cb]> (_callbacks self)) self)
                 (<[_topics self := topics_of self h ++ [t]]> h) Hr)
      as (H1 & H2 & H3 & H4).
    repeat split; [done | done | done |].
    rewrite H4. rewrite (topics_of_append self); [|done].
    by rewrite topics_of_set_callbacks, <- app_assoc.
Qed.
End Registry.

(** ** One invocation of [run] *)

Section Invocation.
Implicit Types (self : EventRpcClient) (h : gmap nat (list string)).
Implicit Types (env : Env) (args : string * bool).

Lemma set_running_same self : set_running (_running self) self = self.
Proof. by destruct self. Qed.

Lemma set_running_twice a b self :
  set_running a (set_running b self) = set_running a self.
Proof. reflexivity. Qed.

Lemma first_raised_hook_faults env (callbacks : list Coroutine) :
  first_raised (map (call_hook env) callbacks) =
    match hook_faults env callbacks with
    | [] => Returned tt
    | e :: _ => Raised e
    end.
Proof.
  unfold hook_faults.
  induction callbacks as [|cb rest IH]; simpl; [done|].
  destruct (call_hook env cb); simpl; [exact IH | done].
Qed.

Lemma hooks_run_hooks b (callbacks : list Coroutine) :
  hooks_run (map (fun cb => {| running_then := b; ev := Hook cb |}) callbacks)
  = callbacks.
Proof.
  unfold hooks_run. induction callbacks as [|cb rest IH]; [done|].
  cbn. f_equal. exact IH.
Qed.

Lemma subscribe_calls_hooks b (callbacks : list Coroutine) :
  subscribe_calls (map (fun cb => {| running_then := b; ev := Hook cb |}) callbacks)
  = [].
Proof.
  unfold subscribe_calls. induction callbacks as [|cb rest IH]; [done|].
  cbn. exact IH.
Qed.

Lemma subscribe_calls_cons (o : Obs) (t : list Obs) :
  subscribe_calls (o :: t) =
    match ev o with
    | RemoteSubscribe ts => ts :: subscribe_calls t
    | _ => subscribe_calls t
    end.
Proof. unfold subscribe_calls. cbn. by destruct (ev o). Qed.

Lemma subscribe_calls_app (t1 t2 : list Obs) :
  subscribe_calls (t1 ++ t2) = subscribe_calls t1 ++ subscribe_calls t2.
Proof. apply omap_app. Qed.

Lemma hooks_run_cons (o : Obs) (t : list Obs) :
  hooks_run (o :: t) =
    match ev o with
    | Hook cb => cb :: hooks_run t
    | _ => hooks_run t
    end.
Proof. unfold hooks_run. cbn. by destruct (ev o). Qed.

Lemma hooks_run_app (t1 t2 : list Obs) :
  hooks_run (t1 ++ t2) = hooks_run t1 ++ hooks_run t2.
Proof. apply omap_app. Qed.

Lemma omap_map_none {A B C} (f : B -> option C) (g : A -> B) (l : list A) :
  (forall x, f (g x) = None) -> omap f (map g l) = [].
Proof.
  intros Hf. induction l as [|x l IH]; [done|].
  cbn [map]. change (omap f (g x :: map g l))
    with (match f (g x) with Some y => y :: omap f (map g l) | None => omap f (map g l) end).
  by rewrite Hf.
Qed.

Lemma hooks_run_gather b env (callbacks : list Coroutine) :
  hooks_run (gather_trace b env callbacks) = callbacks.
Proof.
  unfold gather_trace. rewrite hooks_run_app, hooks_run_hooks.
  unfold hooks_run. rewrite omap_map_none by done. apply app_nil_r.
Qed.

Lemma subscribe_calls_gather b env (callbacks : list Coroutine) :
  subscribe_calls (gather_trace b env callbacks) = [].
Proof.
  unfold gather_trace. rewrite subscribe_calls_app, subscribe_calls_hooks.
  unfold subscribe_calls. by rewrite omap_map_none.
Qed.

Lemma hook_faults_cons env (cb : Coroutine) (l : list Coroutine) :
  hook_faults env (cb :: l) =
    match call_hook env cb with
    | Raised e => e :: hook_faults env l
    | Returned _ => hook_faults env l
    end.
Proof. unfold hook_faults. cbn. by destruct (call_hook env cb). Qed.

Lemma hook_faults_none env (l : list Coroutine) :
  hook_faults env l = [] <->
  Forall (fun cb => exists v, call_hook env cb = Returned v) l.
Proof.
  induction l as [|cb l IH]; [by split; [constructor|]|].
  rewrite hook_faults_cons. split.
  - destruct (call_hook env cb) as [v|e] eqn:Hcb; [|discriminate].
    intros Hl. constructor; [by exists v | by apply IH].
  - intros Hall. inversion Hall as [|? ? [v Hv] Hrest]; subst.
    rewrite Hv. by apply IH.
Qed.

Lemma insert_in_time_perm env (cb : Coroutine) (l : list Coroutine) :
  insert_in_time env cb l ≡ₚ cb :: l.
Proof.
  induction l as [|x l IH]; [done|]. cbn [insert_in_time].
  destruct (Nat.leb _ _); [done|]. rewrite IH. apply Permutation_swap.
Qed.

(** Ordering the hooks in time keeps every hook, as often as it is listed. *)
Lemma in_time_order_perm env (l : list Coroutine) : in_time_order env l ≡ₚ l.
Proof.
  induction l as [|cb l IH]; [done|]. cbn [in_time_order].
  by rewrite insert_in_time_perm, IH.
Qed.




(** Hooks that all return: [gather] returns, and all of them have ended. *)
Lemma gather_result_no_faults env (l : list Coroutine) :
  hook_faults env l = [] -> gather_result env l = Returned tt.
Proof.
  intros Hf. unfold gather_result. rewrite first_raised_hook_faults.
  assert (Hsorted : hook_faults env (in_time_order env l) = []).
  { apply hook_faults_none. rewrite in_time_order_perm. by apply hook_faults_none. }
  by rewrite Hsorted.
Qed.

Lemma ended_in_time_no_faults env (sorted : list Coroutine) :
  hook_faults env sorted = [] -> ended_in_time env sorted = sorted.
Proof.
  induction sorted as [|cb l IH]; [done|].
  rewrite hook_faults_cons. cbn [ended_in_time].
  destruct (call_hook env cb); [|discriminate]. intros Hf. by rewrite IH.
Qed.

(** The handshake, case by case. *)
Lemma on_connection_eq c env h self :
  _on_connection c env h self =
    let o e := {| running_then := _running self; ev := e |} in
    let ts := topics_of self h in
    let hooks := gather_trace (_running self) env (_on_connect_callbacks self) in
    let hooks_end := gather_result env (_on_connect_callbacks self) in
    if truthy ts then
      match remote_subscribe env ts with
      | Returned _ =>
          (hooks_end, self,
           o (Log INFO "connected to server") :: o (RemoteSubscribe ts) :: hooks)
      | Raised e =>
          (Raised e, self,
           [o (Log INFO "connected to server"); o (RemoteSubscribe ts)])
      end
    else (hooks_end, self, o (Log INFO "connected to server") :: hooks).
Proof.
  unfold _on_connection, mbind, M_bind, emit, read, await, gather, mret, M_ret.
  simpl.
  destruct (truthy (topics_of self h)); simpl.
  - destruct (remote_subscribe env (topics_of self h)); simpl; [|done].
    destruct (_on_connect_callbacks self); reflexivity.
  - destruct (_on_connect_callbacks self); reflexivity.
Qed.

Lemma on_connection_self c env h self :
  (_on_connection c env h self).1.2 = self.
Proof.
  rewrite on_connection_eq. simpl.
  destruct (truthy _); [destruct (remote_subscribe _ _)|]; done.
Qed.

(** An invocation whose acquisition faults: nothing else happens. *)
Lemma run_func_not_acquired args env h self e :
  aenter env = Raised e ->
  run_func args env h self =
    (Raised e, self,
     [{| running_then := _running self; ev := Log INFO "trying to connect" |};
      {| running_then := _running self; ev := Acquire args.1 |}]).
Proof.
  intros Ha. unfold run_func, async_with, mbind, M_bind, emit, await.
  simpl. by rewrite Ha.
Qed.

(** An invocation that is handed no connection. *)
Lemma run_func_null args env h self :
  aenter env = Returned None ->
  run_func args env h self =
    (Returned tt, set_running false self,
     [{| running_then := _running self; ev := Log INFO "trying to connect" |};
      {| running_then := _running self; ev := Acquire args.1 |};
      {| running_then := false; ev := Release |}]).
Proof.
  intros Ha. unfold run_func, async_with, mbind, M_bind, emit, await.
  simpl. by rewrite Ha.
Qed.

(** An invocation that is handed a connection: the handshake with the flag
    set, the wait on the reader if asked for and if the handshake went
    through, the log line of the [except] clause that matches, the cleanup
    and the release. *)
Lemma run_func_connected args env h self c :
  aenter env = Returned (Some c) ->
  let live := set_running true self in
  let hs := _on_connection c env h live in
  let body_end :=
    match hs.1.1 with
    | Raised e => Raised e
    | Returned _ => if args.2 then reader env else Returned tt
    end in
  let waited :=
    match hs.1.1 with
    | Returned _ =>
        if args.2 then [{| running_then := true; ev := WaitOnReader |}] else []
    | Raised _ => []
    end in
  let logged :=
    match body_end with
    | Raised e => (run_handlers e live).2
    | Returned _ => []
    end in
  run_func args env h self =
    (body_end, set_running false self,
     {| running_then := _running self; ev := Log INFO "trying to connect" |}
     :: {| running_then := _running self; ev := Acquire args.1 |}
     :: hs.2 ++ waited ++ logged ++ [{| running_then := false; ev := Release |}]).
Proof.
  intros Ha. simpl.
  pose proof (on_connection_self c env h (set_running true self)) as Hs.
  unfold run_func, async_with, try_finally, try_except, mbind, M_bind,
    emit, await, assign_running, mret, M_ret.
  simpl. rewrite Ha.
  destruct (_on_connection c env h (set_running true self)) as [[r s] t].
  simpl in Hs. subst s. simpl.
  destruct r as [[]|e]; simpl.
  - destruct args as [u [|]]; simpl.
    + destruct (reader env) as [[]|e]; simpl.
      * by rewrite ?app_nil_r, <- ?app_assoc.
      * destruct e; simpl; by rewrite ?app_nil_r, <- ?app_assoc.
    + by rewrite ?app_nil_r, <- ?app_assoc.
  - destruct e; simpl; by rewrite ?app_nil_r, <- ?app_assoc.
Qed.

Lemma run_func_connected_shape args env h self c :
  aenter env = Returned (Some c) ->
  exists tail,
    (run_func args env h self).2 =
      {| running_then := _running self; ev := Log INFO "trying to connect" |}
      :: {| running_then := _running self; ev := Acquire args.1 |}
      :: (_on_connection c env h (set_running true self)).2 ++ tail /\
    Forall after_handshake tail.
Proof.
  intros Ha. rewrite (run_func_connected args env h self c Ha). cbn [snd].
  eexists. split; [reflexivity|].
  destruct ((_on_connection c env h (set_running true self)).1.1) as [[]|e].
  - destruct (args.2).
    + destruct (reader env) as [[]|e]; [|destruct e];
        repeat constructor.
    + repeat constructor.
  - destruct e; repeat constructor.
Qed.

Lemma after_handshake_quiet (tail : list Obs) :
  Forall after_handshake tail ->
  subscribe_calls tail = [] /\ hooks_run tail = [].
Proof.
  unfold subscribe_calls, hooks_run.
  induction 1 as [|o tail [Ho _] _ [IH1 IH2]]; [done|].
  cbn. destruct o as [b e]. cbn in *. destruct e; try discriminate; auto.
Qed.
End Invocation.

(** ** The decorator *)

Section Decorator.
Context {Args T : Type}.
Implicit Types (fn : Op Args T) (self : EventRpcClient).

(** Every invocation the decorator makes is an invocation of the wrapped
    operation, with the same arguments, in the environment of its turn,
    on the client as the earlier invocations left it. *)
Lemma retrying_attempt (P : EventRpcClient -> Prop) kw fn args envs h :
  (forall env self, P self -> P (fn args env h self).1.2) ->
  forall fuel n self k a,
    P self ->
    attempts (retrying kw fn fuel n args envs h self) !! k = Some a ->
    exists self_k, P self_k /\
      invocation a = (fn args (envs (n + k)) h self_k).2 /\
      ended a = (fn args (envs (n + k)) h self_k).1.1.
Proof.
  intros Hstep. induction fuel as [|fuel IH]; intros n self k a HP Hk.
  - simpl in Hk. done.
  - simpl in Hk.
    assert (Hhere : forall r : outcome T,
               attempts (once (fn args (envs n) h self) r) !! k = Some a ->
               exists self_k, P self_k /\
                 invocation a = (fn args (envs (n + k)) h self_k).2 /\
                 ended a = (fn args (envs (n + k)) h self_k).1.1).
    { intros r Hr. destruct k as [|k]; simpl in Hr; [|done].
      inversion Hr; subst a; simpl. exists self.
      by rewrite Nat.add_0_r. }
    destruct ((fn args (envs n) h self).1.1) as [v|e] eqn:Hend.
    + by apply (Hhere (Returned v)).
    + destruct (retry kw e).
      * destruct (stop_now (stop kw) n).
        -- by apply (Hhere (Raised (if reraise kw then e else RetryError e))).
        -- destruct k as [|k]; simpl in Hk.
           ++ inversion Hk; subst a; simpl. exists self.
              by rewrite Nat.add_0_r.
           ++ destruct (IH (S n) _ k a (Hstep _ _ HP) Hk) as (s & Hs & Hi & He).
              exists s. by rewrite <- Nat.add_succ_comm.
      * by apply (Hhere (Raised e)).
Qed.

Lemma apply_retry_attempt (P : EventRpcClient -> Prop) (func : Op Args T) args envs h :
  (forall env self, P self -> P (func args env h self).1.2) ->
  forall fuel self k a,
    P self ->
    attempts (apply_retry func args envs h fuel self) !! k = Some a ->
    exists self_k, P self_k /\
      invocation a = (func args (envs (S k)) h self_k).2 /\
      ended a = (func args (envs (S k)) h self_k).1.1.
Proof.
  intros Hstep fuel self k a HP Hk. unfold apply_retry in Hk.
  destruct (_retry_config self).
  - destruct k as [|k]; simpl in Hk; [|done].
    inversion Hk; subst a; simpl. by exists self.
  - by apply (retrying_attempt P kw func args envs h Hstep fuel 1 self k a).
Qed.

(** With the sentinel, the decorated call is the call. *)
Lemma apply_retry_disabled (func : Op Args T) args envs h fuel self :
  _retry_config self = RetryFalse ->
  apply_retry func args envs h fuel self =
    once (func args (envs 1) h self) (func args (envs 1) h self).1.1.
Proof. intros Hc. unfold apply_retry. by rewrite Hc. Qed.

(** An invocation that returns ends the decorated call, whatever the
    configuration. *)
Lemma apply_retry_returns (func : Op Args T) args envs h fuel self v :
  (func args (envs 1) h self).1.1 = Returned v ->
  apply_retry func args envs h (S fuel) self =
    once (func args (envs 1) h self) (Returned v).
Proof.
  intros Hv. unfold apply_retry. destruct (_retry_config self).
  - by rewrite Hv.
  - simpl. by rewrite Hv.
Qed.
End Decorator.

(** ** Every invocation [run] makes *)

Section Attempts.
Implicit Types (self : EventRpcClient) (h : gmap nat (list string)).
Implicit Types (env : Env) (args : string * bool).

(** [run] assigns to [_running] and to nothing else. *)
Lemma run_func_self args env h self :
  exists b, (run_func args env h self).1.2 = set_running b self.
Proof.
  destruct (aenter env) as [[c|]|e] eqn:Ha.
  - exists false. by rewrite (run_func_connected _ _ _ _ c Ha).
  - exists false. by rewrite (run_func_null _ _ _ _ Ha).
  - exists (_running self).
    by rewrite (run_func_not_acquired _ _ _ _ e Ha), set_running_same.
Qed.

(** Each attempt of a decorated [run] is [run_func] on the same registry. *)
Lemma run_attempt args envs h fuel self k a :
  attempts (run args envs h fuel self) !! k = Some a ->
  exists b,
    invocation a = (run_func args (envs (S k)) h (set_running b self)).2 /\
    ended a = (run_func args (envs (S k)) h (set_running b self)).1.1.
Proof.
  intros Hk.
  destruct (apply_retry_attempt (fun s => exists b, s = set_running b self)
              run_func args envs h) with (3 := Hk) as (s & [b ->] & Hi & He).
  - intros env s [b ->].
    destruct (run_func_self args env h (set_running b self)) as [b' Hb'].
    exists b'. by rewrite Hb'.
  - exists (_running self). by rewrite set_running_same.
  - by exists b.
Qed.
End Attempts.

(** ** The properties of the specification *)

(** C2. [subscribe(topic, callback)] while [_running] is true does nothing:
    the client and the store of topic lists come back as they were, so the
    topic sequence and the callback map are the same after as before. *)
Theorem C2_subscribe_while_running_is_noop
    (topic : string) (callback : Coroutine) (self : EventRpcClient)
    (h : gmap nat (list string)) :
  _running self = true ->
  subscribe topic callback self h = (self, h) /\
  topics_of (subscribe topic callback self h).1 (subscribe topic callback self h).2
    = topics_of self h /\
  _callbacks (subscribe topic callback self h).1 = _callbacks self.
Proof.
  intros Hr. by rewrite (subscribe_running _ _ _ _ Hr).
Qed.

Lemma C2_witness :
  subscribe "steel" (coro 3) (set_running true (docstring_client None)) docstring_heap
  = (set_running true (docstring_client None), docstring_heap).
Proof.
  apply (C2_subscribe_while_running_is_noop "steel" (coro 3)
           (set_running true (docstring_client None)) docstring_heap).
  reflexivity.
Defined.

(** C7. [act_on_topic(topic, data)]: with a callback registered for the
    topic, that callback is awaited once, with that payload, and nothing
    else happens; the call ends as the callback does.  With none registered
    nothing happens and the call returns. *)
Theorem C7_dispatch
    (topic : string) (data : Data) (call : Coroutine -> Data -> outcome unit)
    (self : EventRpcClient) :
  (forall callback, _callbacks self !! topic = Some callback ->
     act_on_topic topic data call self =
       (call callback data, self,
        [{| running_then := _running self; ev := Callback callback data |}])) /\
  (_callbacks self !! topic = None ->
     act_on_topic topic data call self = (Returned tt, self, [])).
Proof.
  unfold act_on_topic. split.
  - intros callback Hcb. by rewrite Hcb.
  - intros Hcb. by rewrite Hcb.
Qed.

Lemma C7_witness :
  act_on_topic "guns" (DStr "bang") quiet_callbacks (docstring_client None)
  = (Returned tt, docstring_client None,
     [{| running_then := false; ev := Callback (coro 1) (DStr "bang") |}]) /\
  act_on_topic "steel" (DStr "clang") quiet_callbacks (docstring_client None)
  = (Returned tt, docstring_client None, []).
Proof.
  split.
  - apply (proj1 (C7_dispatch "guns" (DStr "bang") quiet_callbacks
                    (docstring_client None)) (coro 1)).
    reflexivity.
  - apply (proj2 (C7_dispatch "steel" (DStr "clang") quiet_callbacks
                    (docstring_client None))).
    reflexivity.
Defined.

(** C8. Last write wins: after [subscribe(t, c1)] then [subscribe(t, c2)]
    before start, dispatch for [t] does what it does after [subscribe(t, c2)]
    alone, and what it does is await [c2], never [c1]. *)
Theorem C8_last_subscription_wins
    (t : string) (c1 c2 : Coroutine) (data : Data)
    (call : Coroutine -> Data -> outcome unit)
    (self : EventRpcClient) (h : gmap nat (list string)) :
  _running self = false ->
  let twice := subscribe t c2 (subscribe t c1 self h).1 (subscribe t c1 self h).2 in
  let alone := subscribe t c2 self h in
  act_on_topic t data call twice.1 = act_on_topic t data call alone.1 /\
  (act_on_topic t data call twice.1).1.1 = call c2 data /\
  (act_on_topic t data call twice.1).2
    = [{| running_then := false; ev := Callback c2 data |}].
Proof.
  intros Hr. cbv zeta.
  rewrite (subscribe_idle t c2 self h Hr), (subscribe_idle t c1 self h Hr).
  cbn [fst snd].
  rewrite (subscribe_idle t c2 (set_callbacks _ self) _ Hr). cbn [fst snd].
  assert (Hsame : set_callbacks
            (<[t := c2]> (_callbacks (set_callbacks (<[t := c1]> (_callbacks self)) self)))
            (set_callbacks (<[t := c1]> (_callbacks self)) self)
          = set_callbacks (<[t := c2]> (_callbacks self)) self).
  { unfold set_callbacks. cbn. by rewrite insert_insert_eq. }
  rewrite Hsame. split; [reflexivity|].
  unfold act_on_topic, await. cbn.
  rewrite lookup_insert_eq. cbn. by rewrite Hr.
Qed.

Lemma C8_witness :
  (act_on_topic "guns" DNone quiet_callbacks
     (subscribe "guns" (coro 2)
        (subscribe "guns" (coro 1) (__init__ None None None []) module_heap).1
        (subscribe "guns" (coro 1) (__init__ None None None []) module_heap).2).1).2
  = [{| running_then := false; ev := Callback (coro 2) DNone |}].
Proof.
  apply (C8_last_subscription_wins "guns" (coro 1) (coro 2) DNone quiet_callbacks
           (__init__ None None None []) module_heap).
  reflexivity.
Defined.

(** C9. Two clients constructed without a [topics] argument hold the same
    list object.  After [subscribe(t, cb)] on the first (before start), [t]
    is at the end of the second client's topic sequence, and the batched
    subscribe call of the second client sends it. *)
Theorem C9_default_topics_shared
    (m1 m2 : option Methods) (r1 r2 : option RetryConfig)
    (kw1 kw2 : list (string * Data))
    (t : string) (cb : Coroutine) (h : gmap nat (list string))
    (args : string * bool) (env : Env) (c : WebSocketRpcClient) :
  let first := __init__ None m1 r1 kw1 in
  let second := __init__ None m2 r2 kw2 in
  let h' := (subscribe t cb first h).2 in
  aenter env = Returned (Some c) ->
  _topics first = _topics second /\
  topics_of second h' = topics_of second h ++ [t] /\
  t ∈ topics_of second h' /\
  subscribe_calls (run_func args env h' second).2 = [topics_of second h ++ [t]].
Proof.
  intros first second h' Ha.
  assert (Hts : topics_of second h' = topics_of second h ++ [t]).
  { subst h'. rewrite (subscribe_idle t cb first h eq_refl). cbn [snd].
    by apply topics_of_append. }
  split; [reflexivity|]. split; [exact Hts|]. split.
  - rewrite Hts. apply elem_of_app. right. apply list_elem_of_singleton. done.
  - rewrite (run_func_connected args env h' second c Ha). cbn [snd].
    rewrite on_connection_eq. cbn zeta.
    rewrite topics_of_set_running, Hts.
    assert (Htruthy : truthy (topics_of second h ++ [t]) = true).
    { by destruct (topics_of second h). }
    rewrite Htruthy.
    destruct (remote_subscribe env (topics_of second h ++ [t])) as [[]|e].
    + cbn [snd fst]. destruct (gather_result _ _) as [[]|e]; destruct (args.2);
        cbn; try destruct (reader env) as [[]|e']; try destruct e; try destruct e';
        reflexivity.
    + cbn [snd fst]. destruct e; reflexivity.
Qed.

Lemma C9_witness :
  subscribe_calls
    (run_func (endpoint, true) env_served
       (subscribe "guns" (coro 1) (__init__ None None None []) module_heap).2
       (__init__ None None (Some RetryFalse) [])).2
  = [["guns"]].
Proof.
  apply (C9_default_topics_shared None None None (Some RetryFalse) [] []
           "guns" (coro 1) module_heap (endpoint, true) env_served server).
  reflexivity.
Defined.

(** C4. An invocation of [run] that got past the acquisition, with a
    connection or without one, leaves [_running] false however it ends, and
    the flag is already false when the transport is released, the last
    thing the invocation does. *)
Theorem C4_running_reset_on_every_exit
    (args : string * bool) (env : Env) (h : gmap nat (list string))
    (self : EventRpcClient) (client : option WebSocketRpcClient) :
  aenter env = Returned client ->
  _running (run_func args env h self).1.2 = false /\
  last (run_func args env h self).2 = Some {| running_then := false; ev := Release |}.
Proof.
  intros Ha. destruct client as [c|].
  - rewrite (run_func_connected args env h self c Ha). cbn [fst snd].
    split; [reflexivity|].
    rewrite !app_comm_cons, !app_assoc. apply last_snoc.
  - rewrite (run_func_null args env h self Ha). split; reflexivity.
Qed.

Lemma C4_witness :
  _running (run_func (endpoint, true) env_lost docstring_heap
              (set_running true (docstring_client None))).1.2 = false.
Proof.
  apply (C4_running_reset_on_every_exit (endpoint, true) env_lost docstring_heap
           (set_running true (docstring_client None)) (Some server)).
  reflexivity.
Defined.

(** C10. When the transport hands out no connection, an invocation of [run]
    returns: it logs, acquires and releases, with no subscribe call and no
    hook, and [_running] is false afterwards.  The decorated [run] returns
    after that one invocation, whatever the retry configuration. *)
Theorem C10_null_connection
    (args : string * bool) (envs : nat -> Env) (h : gmap nat (list string))
    (fuel : nat) (self : EventRpcClient) :
  aenter (envs 1) = Returned None ->
  run_func args (envs 1) h self =
    (Returned tt, set_running false self,
     [{| running_then := _running self; ev := Log INFO "trying to connect" |};
      {| running_then := _running self; ev := Acquire args.1 |};
      {| running_then := false; ev := Release |}]) /\
  subscribe_calls (run_func args (envs 1) h self).2 = [] /\
  hooks_run (run_func args (envs 1) h self).2 = [] /\
  result (run args envs h (S fuel) self) = Some (Returned tt) /\
  _running (self_after (run args envs h (S fuel) self)) = false /\
  trace_of (run args envs h (S fuel) self) = (run_func args (envs 1) h self).2.
Proof.
  intros Ha. pose proof (run_func_null args (envs 1) h self Ha) as Hrun.
  unfold run.
  rewrite (apply_retry_returns run_func args envs h fuel self tt)
    by (by rewrite Hrun).
  rewrite Hrun. unfold trace_of. cbn.
  repeat split; reflexivity.
Qed.

Lemma C10_witness :
  result (run (endpoint, true) (fun _ => env_null) docstring_heap 1
            (docstring_client None)) = Some (Returned tt).
Proof.
  apply (C10_null_connection (endpoint, true) (fun _ => env_null) docstring_heap 0
           (docstring_client None)).
  reflexivity.
Defined.

(** C5. With [retry_config=False] the decorated operation is the operation:
    one invocation, same client, same arguments, and its outcome, a fault
    included, is the outcome of the call.  For [run] and a fault of the
    acquisition: that fault comes out, after one attempt to connect and no
    backoff. *)
Theorem C5_retry_disabled
    {Args T : Type} (func : Op Args T) (args : Args) (run_args : string * bool)
    (envs : nat -> Env) (h : gmap nat (list string)) (fuel : nat)
    (self : EventRpcClient) :
  _retry_config self = RetryFalse ->
  apply_retry func args envs h fuel self =
    once (func args (envs 1) h self) (func args (envs 1) h self).1.1 /\
  length (attempts (apply_retry func args envs h fuel self)) = 1 /\
  (forall e, (func args (envs 1) h self).1.1 = Raised e ->
     result (apply_retry func args envs h fuel self) = Some (Raised e)) /\
  (forall e, aenter (envs 1) = Raised e ->
     result (run run_args envs h fuel self) = Some (Raised e) /\
     self_after (run run_args envs h fuel self) = self /\
     acquisitions (trace_of (run run_args envs h fuel self)) = [run_args.1] /\
     trace_of (run run_args envs h fuel self) =
       [{| running_then := _running self; ev := Log INFO "trying to connect" |};
        {| running_then := _running self; ev := Acquire run_args.1 |}]).
Proof.
  intros Hc. rewrite (apply_retry_disabled func args envs h fuel self Hc).
  split; [reflexivity|]. split; [reflexivity|]. split.
  - intros e He. cbn. by rewrite He.
  - intros e Ha. unfold run.
    rewrite (apply_retry_disabled run_func run_args envs h fuel self Hc).
    rewrite (run_func_not_acquired run_args (envs 1) h self e Ha).
    repeat split; reflexivity.
Qed.

Lemma C5_witness :
  result (run (endpoint, true) (fun _ => env_refused) docstring_heap 0
            (docstring_client (Some RetryFalse)))
  = Some (Raised (Exception "ConnectionRefusedError")).
Proof.
  apply (C5_retry_disabled run_func (endpoint, true) (endpoint, true)
           (fun _ => env_refused) docstring_heap 0
           (docstring_client (Some RetryFalse)) eq_refl).
  reflexivity.
Defined.

(** C1. Every invocation that [run] makes and that is handed a connection
    (the first and every reconnect), with a topic sequence that is not
    empty, issues one remote subscribe call, for the whole topic sequence,
    and no hook has run before it.  The topic sequence is the one the client
    started with, followed by the topics of the [subscribe] calls made before
    start, in order. *)
Theorem C1_one_batched_subscribe_before_hooks
    (subs : list (string * Coroutine)) (self0 self : EventRpcClient)
    (h0 h : gmap nat (list string)) (args : string * bool) (envs : nat -> Env)
    (fuel k : nat) (a : Attempt unit) (c : WebSocketRpcClient) :
  _running self0 = false ->
  subscribe_all subs self0 h0 = (self, h) ->
  topics_of self h <> [] ->
  attempts (run args envs h fuel self) !! k = Some a ->
  aenter (envs (S k)) = Returned (Some c) ->
  topics_of self h = topics_of self0 h0 ++ map fst subs /\
  subscribe_calls (invocation a) = [topics_of self h] /\
  exists pre post,
    invocation a =
      pre ++ {| running_then := true; ev := RemoteSubscribe (topics_of self h) |} :: post /\
    hooks_run pre = [] /\ subscribe_calls pre = [] /\ subscribe_calls post = [].
Proof.
  intros Hr Hsubs Hne Hk Ha.
  split.
  { pose proof (subscribe_all_topics subs self0 h0 Hr) as (_ & _ & _ & Hts).
    by rewrite Hsubs in Hts. }
  destruct (run_attempt args envs h fuel self k a Hk) as (b & Hi & _).
  destruct (run_func_connected_shape args (envs (S k)) h (set_running b self) c Ha)
    as (tail & Ht & Htail).
  destruct (after_handshake_quiet tail Htail) as [Hq1 Hq2].
  rewrite Hi, Ht, on_connection_eq. cbn zeta.
  rewrite !topics_of_set_running.
  destruct (topics_of self h) as [|t ts] eqn:Hts; [done|]. cbn [truthy].
  destruct (remote_subscribe (envs (S k)) (t :: ts)) as [[]|e];
    cbn [snd app]; split.
  - rewrite !subscribe_calls_cons. cbn [ev].
    by rewrite subscribe_calls_app, subscribe_calls_gather, Hq1.
  - eexists [_; _; _], _. split; [reflexivity|].
    split; [reflexivity|]. split; [reflexivity|].
    by rewrite subscribe_calls_app, subscribe_calls_gather, Hq1.
  - rewrite !subscribe_calls_cons. cbn [ev]. by rewrite Hq1.
  - eexists [_; _; _], _. split; [reflexivity|].
    split; [reflexivity|]. split; [reflexivity|]. exact Hq1.
Qed.

Lemma C1_witness :
  exists a,
    attempts (run (endpoint, true) envs_reconnect docstring_heap 5
                (subscribe_all docstring_subs (__init__ None None None []) module_heap).1)
      !! 1 = Some a /\
    subscribe_calls (invocation a) = [["guns"; "germs"]].
Proof.
  eexists. split; [vm_compute; reflexivity|].
  apply (C1_one_batched_subscribe_before_hooks docstring_subs
           (__init__ None None None [])
           (subscribe_all docstring_subs (__init__ None None None []) module_heap).1
           module_heap docstring_heap (endpoint, true) envs_reconnect 5 1 _ server).
  - reflexivity.
  - reflexivity.
  - discriminate.
  - vm_compute; reflexivity.
  - reflexivity.
Defined.

(** C3, as the specification states it, fails: in the docstring's usage the batched
    subscribe call is observed with the flag already true. *)
Lemma C3_counterexample :
  ~ running_only_after_handshake (endpoint, true) env_lost docstring_heap
      (docstring_client None).
Proof.
  unfold running_only_after_handshake. intros Hall.
  assert (Hin : {| running_then := true; ev := RemoteSubscribe ["guns"; "germs"] |}
                ∈ (run_func (endpoint, true) env_lost docstring_heap
                     (docstring_client None)).2).
  { vm_compute. do 3 apply list_elem_of_further. apply list_elem_of_here. }
  pose proof (proj1 (Forall_forall _ _) Hall _ Hin eq_refl) as Hfalse.
  discriminate Hfalse.
Qed.


(** * Further properties of the code *)

(** ** One invocation of [run], path by path *)

Section Paths.
Implicit Types (self : EventRpcClient) (h : gmap nat (list string)).
Implicit Types (env : Env) (args : string * bool).

Lemma omap_cons_case {A B} (f : A -> option B) (x : A) (l : list A) :
  omap f (x :: l) =
    match f x with Some y => y :: omap f l | None => omap f l end.
Proof. reflexivity. Qed.

Lemma omap_none {A B} (f : A -> option B) (l : list A) :
  Forall (fun x => f x = None) l -> omap f l = [].
Proof.
  induction 1 as [|x l Hx _ IH]; [done|].
  by rewrite omap_cons_case, Hx.
Qed.

Lemma omap_gather_none {B} (f : Obs -> option B) b env (callbacks : list Coroutine) :
  (forall cb, f {| running_then := b; ev := Hook cb |} = None) ->
  (forall cb, f {| running_then := b; ev := HookEnd cb |} = None) ->
  omap f (gather_trace b env callbacks) = [].
Proof.
  intros Hstart Hend. unfold gather_trace.
  by rewrite omap_app, !omap_map_none.
Qed.

Lemma omap_hooks_none {B} (f : Obs -> option B) b (callbacks : list Coroutine) :
  (forall cb, f {| running_then := b; ev := Hook cb |} = None) ->
  omap f (map (fun cb => {| running_then := b; ev := Hook cb |}) callbacks) = [].
Proof.
  intros Hf. apply omap_none, Forall_map, Forall_forall. intros cb _. apply Hf.
Qed.

(** An [except] clause logs one line or none, and nothing else. *)
Lemma run_handlers_trace e self :
  (run_handlers e self).2 =
    match e with
    | ConnectionClosed =>
        [{| running_then := _running self; ev := Log ERROR "RPC connection lost" |}]
    | WebSocketException =>
        [{| running_then := _running self; ev := Log INFO "RPC connection failed" |}]
    | Exception _ | RetryError _ =>
        [{| running_then := _running self; ev := Log CRITICAL "RPC Uncaught Error" |}]
    | BaseException _ => []
    end.
Proof. by destruct e. Qed.

(** The batched subscribe call faults: the handshake stops there. *)
Lemma run_func_subscribe_fault args env h self c e :
  aenter env = Returned (Some c) ->
  topics_of self h <> [] ->
  remote_subscribe env (topics_of self h) = Raised e ->
  run_func args env h self =
    (Raised e, set_running false self,
     [{| running_then := _running self; ev := Log INFO "trying to connect" |};
      {| running_then := _running self; ev := Acquire args.1 |};
      {| running_then := true; ev := Log INFO "connected to server" |};
      {| running_then := true; ev := RemoteSubscribe (topics_of self h) |}]
     ++ (run_handlers e (set_running true self)).2
     ++ [{| running_then := false; ev := Release |}]).
Proof.
  intros Ha Hne Hsub.
  rewrite (run_func_connected args env h self c Ha). cbn zeta.
  rewrite on_connection_eq. cbn zeta. rewrite topics_of_set_running.
  destruct (topics_of self h) as [|t ts] eqn:Hts; [done|]. cbn [truthy].
  rewrite Hsub. reflexivity.
Qed.

(** The batched subscribe call goes through, or there is none to make: the
    hooks are gathered, the reader is awaited if they all returned and the
    caller asked for it. *)
Lemma run_func_handshake args env h self c :
  aenter env = Returned (Some c) ->
  (topics_of self h = [] \/
   remote_subscribe env (topics_of self h) = Returned tt) ->
  let hooks_end := gather_result env (_on_connect_callbacks self) in
  let body_end :=
    match hooks_end with
    | Raised e => Raised e
    | Returned _ => if args.2 then reader env else Returned tt
    end in
  run_func args env h self =
    (body_end, set_running false self,
     [{| running_then := _running self; ev := Log INFO "trying to connect" |};
      {| running_then := _running self; ev := Acquire args.1 |};
      {| running_then := true; ev := Log INFO "connected to server" |}]
     ++ (if truthy (topics_of self h)
         then [{| running_then := true; ev := RemoteSubscribe (topics_of self h) |}]
         else [])
     ++ gather_trace true env (_on_connect_callbacks self)
     ++ match hooks_end with
        | Returned _ =>
            if args.2 then [{| running_then := true; ev := WaitOnReader |}] else []
        | Raised _ => []
        end
     ++ match body_end with
        | Raised e => (run_handlers e (set_running true self)).2
        | Returned _ => []
        end
     ++ [{| running_then := false; ev := Release |}]).
Proof.
  intros Ha Hsub.
  rewrite (run_func_connected args env h self c Ha). cbn zeta.
  rewrite on_connection_eq. cbn zeta. rewrite topics_of_set_running.
  change (_on_connect_callbacks (set_running true self))
    with (_on_connect_callbacks self).
  change (_running (set_running true self)) with true.
  destruct Hsub as [Hnil | Hok].
  - rewrite Hnil. cbn [truthy fst snd]. reflexivity.
  - destruct (truthy (topics_of self h)).
    + rewrite Hok. cbn [fst snd]. reflexivity.
    + cbn [fst snd]. reflexivity.
Qed.

(** How an invocation ends does not depend on the flag it starts with. *)
Lemma run_func_end_flag args env h self b :
  (run_func args env h (set_running b self)).1.1 = (run_func args env h self).1.1.
Proof.
  destruct (aenter env) as [[c|]|e] eqn:Ha.
  - rewrite !(run_func_connected _ _ _ _ c Ha). cbn zeta. cbn [fst snd].
    rewrite !on_connection_eq. cbn zeta.
    rewrite !topics_of_set_running. reflexivity.
  - by rewrite !(run_func_null _ _ _ _ Ha).
  - by rewrite !(run_func_not_acquired _ _ _ _ e Ha).
Qed.

(** An invocation leaves the flag false, unless the acquisition faulted and
    the flag was true before. *)
Lemma run_func_idle args env h self :
  _running self = false -> _running (run_func args env h self).1.2 = false.
Proof.
  intros Hr. destruct (aenter env) as [[c|]|e] eqn:Ha.
  - by rewrite (run_func_connected _ _ _ _ c Ha).
  - by rewrite (run_func_null _ _ _ _ Ha).
  - by rewrite (run_func_not_acquired _ _ _ _ e Ha).
Qed.
End Paths.

(** ** The registry, further *)

Section RegistryMore.
Implicit Types (self : EventRpcClient) (h : gmap nat (list string)).

Lemma subscribe_all_callbacks (subs : list (string * Coroutine)) (t : string) :
  forall self h,
    _running self = false ->
    _callbacks (subscribe_all subs self h).1 !! t =
      match last_registered t subs with
      | Some cb => Some cb
      | None => _callbacks self !! t
      end.
Proof.
  induction subs as [|[t' cb'] rest IH]; intros self h Hr; [done|].
  cbn [subscribe_all last_registered].
  rewrite (subscribe_idle t' cb' self h Hr).
  rewrite (IH (set_callbacks (<[t' := cb']> (_callbacks self)) self) _ Hr).
  destruct (last_registered t rest); [done|].
  cbn. case_decide as Ht.
  - subst t'. by rewrite lookup_insert_eq.
  - by rewrite lookup_insert_ne.
Qed.

Lemma on_connect_all_hooks (callbacks : list Coroutine) :
  forall self,
    _on_connect_callbacks (on_connect_all callbacks self)
      = _on_connect_callbacks self ++ callbacks /\
    _topics (on_connect_all callbacks self) = _topics self /\
    _callbacks (on_connect_all callbacks self) = _callbacks self /\
    _running (on_connect_all callbacks self) = _running self.
Proof.
  induction callbacks as [|cb rest IH]; intros self; cbn [on_connect_all].
  - by rewrite app_nil_r.
  - destruct (IH (on_connect cb self)) as (H1 & H2 & H3 & H4).
    rewrite H1, H2, H3, H4. cbn. by rewrite <- app_assoc.
Qed.
End RegistryMore.

(** X1. After any run of [subscribe] calls made before start, dispatch for
    a topic awaits the callback of the last call that named the topic, once,
    with the payload.  A topic that no call named and that had no callback
    before, a topic given to the constructor for instance, is dispatched to
    nobody: nothing happens and the call returns. *)
Theorem dispatch_after_subscriptions
    (subs : list (string * Coroutine)) (self : EventRpcClient)
    (h : gmap nat (list string)) (t : string) (data : Data)
    (call : Coroutine -> Data -> outcome unit) :
  _running self = false ->
  let after := (subscribe_all subs self h).1 in
  (forall cb, last_registered t subs = Some cb ->
     act_on_topic t data call after =
       (call cb data, after,
        [{| running_then := false; ev := Callback cb data |}])) /\
  (last_registered t subs = None -> _callbacks self !! t = None ->
     act_on_topic t data call after = (Returned tt, after, [])).
Proof.
  intros Hr after.
  pose proof (subscribe_all_callbacks subs t self h Hr) as Hcb.
  pose proof (subscribe_all_topics subs self h Hr) as (Hrun & _).
  fold after in Hcb, Hrun. unfold act_on_topic, await. split.
  - intros cb Hlast. rewrite Hlast in Hcb. by rewrite Hcb, Hrun.
  - intros Hlast Hnone. rewrite Hlast, Hnone in Hcb. by rewrite Hcb.
Qed.

Lemma dispatch_after_subscriptions_witness :
  (act_on_topic "guns" (DInt 3) quiet_callbacks
     (subscribe_all [("guns", coro 1); ("germs", coro 2); ("guns", coro 5)]
        (__init__ None None None []) module_heap).1).2
  = [{| running_then := false; ev := Callback (coro 5) (DInt 3) |}] /\
  (act_on_topic "steel" (DInt 3) quiet_callbacks
     (subscribe_all [("guns", coro 1); ("germs", coro 2); ("guns", coro 5)]
        (__init__ None None None []) module_heap).1).2
  = [].
Proof.
  destruct (dispatch_after_subscriptions
              [("guns", coro 1); ("germs", coro 2); ("guns", coro 5)]
              (__init__ None None None []) module_heap "guns" (DInt 3)
              quiet_callbacks eq_refl) as [Hsome _].
  destruct (dispatch_after_subscriptions
              [("guns", coro 1); ("germs", coro 2); ("guns", coro 5)]
              (__init__ None None None []) module_heap "steel" (DInt 3)
              quiet_callbacks eq_refl) as [_ Hnone].
  split.
  - by rewrite (Hsome (coro 5) eq_refl).
  - by rewrite (Hnone eq_refl eq_refl).
Defined.

(** X2. A client constructed with a list of its own holds that very list
    object: [subscribe] before start appends to the caller's list.  And it
    appends to no other: a client whose topic list is another object sees
    its topic sequence unchanged. *)
Theorem explicit_topics_aliased_and_separate
    (l1 l2 : nat) (m1 m2 : option Methods) (r1 r2 : option RetryConfig)
    (kw1 kw2 : list (string * Data))
    (t : string) (cb : Coroutine) (h : gmap nat (list string)) :
  l1 <> l2 ->
  let first := __init__ (Some l1) m1 r1 kw1 in
  let second := __init__ (Some l2) m2 r2 kw2 in
  let h' := (subscribe t cb first h).2 in
  h' !!! l1 = (h !!! l1) ++ [t] /\
  topics_of first h' = topics_of first h ++ [t] /\
  topics_of second h' = topics_of second h /\
  (forall l, l <> l1 -> h' !! l = h !! l).
Proof.
  intros Hne first second h'. subst h'.
  rewrite (subscribe_idle t cb first h eq_refl). cbn [snd].
  unfold topics_of. cbn [_topics first second __init__].
  rewrite lookup_total_insert_eq.
  rewrite lookup_total_insert_ne by done.
  repeat split; try done.
  intros l Hl. by rewrite lookup_insert_ne.
Qed.

Lemma explicit_topics_aliased_and_separate_witness :
  topics_of (__init__ (Some 2) None None [])
    (subscribe "guns" (coro 1) (__init__ (Some 1) None None [])
       (<[1 := ["steel"]]> (<[2 := ["germs"]]> module_heap))).2
  = ["germs"] /\
  topics_of (__init__ (Some 1) None None [])
    (subscribe "guns" (coro 1) (__init__ (Some 1) None None [])
       (<[1 := ["steel"]]> (<[2 := ["germs"]]> module_heap))).2
  = ["steel"; "guns"].
Proof.
  destruct (explicit_topics_aliased_and_separate 1 2 None None None None [] []
              "guns" (coro 1) (<[1 := ["steel"]]> (<[2 := ["germs"]]> module_heap)))
    as (_ & Hfirst & Hsecond & _).
  - discriminate.
  - split; [exact Hsecond | exact Hfirst].
Defined.

(** ** The handshake, further *)

Section HandshakeMore.
Implicit Types (self : EventRpcClient) (h : gmap nat (list string)).
Implicit Types (env : Env) (args : string * bool).

(** Cases on what follows the subscribe call in [run_func_handshake]. *)
Ltac handshake_cases env self args :=
  let e := fresh "e" in
  destruct (gather_result env (_on_connect_callbacks self)) as [[]|e];
  [ destruct (args.2); [destruct (reader env) as [[]|e]|] | ];
  rewrite ?run_handlers_trace;
  try (destruct e).

Lemma run_func_hooks_run args env h self c :
  aenter env = Returned (Some c) ->
  (topics_of self h = [] \/
   remote_subscribe env (topics_of self h) = Returned tt) ->
  hooks_run (run_func args env h self).2 = _on_connect_callbacks self.
Proof.
  intros Ha Hsub.
  rewrite (run_func_handshake args env h self c Ha Hsub). cbn zeta. cbn [snd].
  rewrite !hooks_run_app, hooks_run_gather.
  assert (Hsubpart : hooks_run
            (if truthy (topics_of self h)
             then [{| running_then := true; ev := RemoteSubscribe (topics_of self h) |}]
             else []) = []) by (by destruct (truthy _)).
  rewrite Hsubpart.
  handshake_cases env self args; cbn; by rewrite app_nil_r.
Qed.

Lemma run_func_reader_waits args env h self c :
  aenter env = Returned (Some c) ->
  (topics_of self h = [] \/
   remote_subscribe env (topics_of self h) = Returned tt) ->
  reader_waits (run_func args env h self).2 =
    match gather_result env (_on_connect_callbacks self) with
    | Returned _ => if args.2 then [true] else []
    | Raised _ => []
    end.
Proof.
  intros Ha Hsub.
  rewrite (run_func_handshake args env h self c Ha Hsub). cbn zeta. cbn [snd].
  unfold reader_waits. rewrite !omap_app.
  rewrite (omap_gather_none _ true) by done.
  assert (Hsubpart : forall l : list Obs,
            omap (fun o => match ev o with
                           | WaitOnReader => Some (running_then o)
                           | _ => None
                           end)
              (if truthy (topics_of self h)
               then [{| running_then := true; ev := RemoteSubscribe (topics_of self h) |}]
               else []) = []) by (intros _; by destruct (truthy _)).
  rewrite (Hsubpart []).
  handshake_cases env self args; reflexivity.
Qed.
End HandshakeMore.

(** X3. [on_connect] is not gated by the flag: whatever [_running] is, the
    hooks registered by a run of [on_connect] calls are invoked, after the
    hooks already there and in the order of the calls, by the next
    invocation of [run] that is handed a connection and whose batched
    subscribe call (if there is one) does not fault. *)
Theorem on_connect_never_frozen
    (callbacks : list Coroutine) (self : EventRpcClient)
    (h : gmap nat (list string)) (args : string * bool) (env : Env)
    (c : WebSocketRpcClient) :
  aenter env = Returned (Some c) ->
  (topics_of self h = [] \/
   remote_subscribe env (topics_of self h) = Returned tt) ->
  hooks_run (run_func args env h (on_connect_all callbacks self)).2
  = _on_connect_callbacks self ++ callbacks.
Proof.
  intros Ha Hsub.
  destruct (on_connect_all_hooks callbacks self) as (Hhooks & Htopics & _ & _).
  rewrite (run_func_hooks_run args env h _ c Ha).
  - exact Hhooks.
  - unfold topics_of in *. by rewrite Htopics.
Qed.

Lemma on_connect_never_frozen_witness :
  hooks_run (run_func (endpoint, true) env_served docstring_heap
               (on_connect_all [coro 9; coro 7]
                  (set_running true (docstring_client None)))).2
  = [coro 7; coro 8; coro 9; coro 7].
Proof.
  apply (on_connect_never_frozen [coro 9; coro 7]
           (set_running true (docstring_client None)) docstring_heap
           (endpoint, true) env_served server).
  - reflexivity.
  - right. reflexivity.
Defined.

Section PathsMore.
Implicit Types (self : EventRpcClient) (h : gmap nat (list string)).
Implicit Types (env : Env) (args : string * bool).

(** The two ways the batched subscribe step can go. *)
Lemma subscribe_step_cases env self h :
  (topics_of self h = [] \/
   remote_subscribe env (topics_of self h) = Returned tt) \/
  (exists e, topics_of self h <> [] /\
             remote_subscribe env (topics_of self h) = Raised e).
Proof.
  destruct (topics_of self h) as [|t ts]; [by left; left|].
  destruct (remote_subscribe env (t :: ts)) as [[]|e].
  - left. by right.
  - right. by exists e.
Qed.

Lemma run_func_acquisitions args env h self :
  acquisitions (run_func args env h self).2 = [args.1].
Proof.
  destruct (aenter env) as [[c|]|e] eqn:Ha.
  - destruct (subscribe_step_cases env self h) as [Hsub | (e & Hne & Hsub)].
    + rewrite (run_func_handshake args env h self c Ha Hsub). cbn zeta. cbn [snd].
      unfold acquisitions. rewrite !omap_app.
      rewrite (omap_gather_none _ true) by done.
      destruct (truthy (topics_of self h));
        destruct (gather_result _ _) as [[]|e];
        [ destruct (args.2); [destruct (reader env) as [[]|e]|] | |
          destruct (args.2); [destruct (reader env) as [[]|e]|] | ];
        rewrite ?run_handlers_trace; try destruct e; reflexivity.
    + rewrite (run_func_subscribe_fault args env h self c e Ha Hne Hsub).
      rewrite run_handlers_trace. by destruct e.
  - by rewrite (run_func_null args env h self Ha).
  - by rewrite (run_func_not_acquired args env h self e Ha).
Qed.

Lemma run_func_releases args env h self :
  releases (run_func args env h self).2 =
    match aenter env with Returned _ => [false] | Raised _ => [] end.
Proof.
  destruct (aenter env) as [[c|]|e] eqn:Ha.
  - destruct (subscribe_step_cases env self h) as [Hsub | (e & Hne & Hsub)].
    + rewrite (run_func_handshake args env h self c Ha Hsub). cbn zeta. cbn [snd].
      unfold releases. rewrite !omap_app.
      rewrite (omap_gather_none _ true) by done.
      destruct (truthy (topics_of self h));
        destruct (gather_result _ _) as [[]|e];
        [ destruct (args.2); [destruct (reader env) as [[]|e]|] | |
          destruct (args.2); [destruct (reader env) as [[]|e]|] | ];
        rewrite ?run_handlers_trace; try destruct e; reflexivity.
    + rewrite (run_func_subscribe_fault args env h self c e Ha Hne Hsub).
      rewrite run_handlers_trace. by destruct e.
  - by rewrite (run_func_null args env h self Ha).
  - by rewrite (run_func_not_acquired args env h self e Ha).
Qed.

Lemma run_func_no_topics args env h self :
  topics_of self h = [] -> subscribe_calls (run_func args env h self).2 = [].
Proof.
  intros Hnil. destruct (aenter env) as [[c|]|e] eqn:Ha.
  - rewrite (run_func_handshake args env h self c Ha (or_introl Hnil)).
    cbn zeta. cbn [snd]. rewrite Hnil. cbn [truthy].
    rewrite !subscribe_calls_app, subscribe_calls_gather.
    destruct (gather_result _ _) as [[]|e];
      [ destruct (args.2); [destruct (reader env) as [[]|e]|] | ];
      rewrite ?run_handlers_trace; try destruct e; reflexivity.
  - by rewrite (run_func_null args env h self Ha).
  - by rewrite (run_func_not_acquired args env h self e Ha).
Qed.
End PathsMore.

(** X4. A client whose topic sequence is empty never calls the broker's
    subscribe: in no invocation that [run] makes, the first or a reconnect,
    with a connection or without, is there a remote subscribe call. *)
Theorem no_topics_no_subscribe_call
    (args : string * bool) (envs : nat -> Env) (h : gmap nat (list string))
    (fuel k : nat) (self : EventRpcClient) (a : Attempt unit) :
  topics_of self h = [] ->
  attempts (run args envs h fuel self) !! k = Some a ->
  subscribe_calls (invocation a) = [].
Proof.
  intros Hnil Hk.
  destruct (run_attempt args envs h fuel self k a Hk) as (b & -> & _).
  apply run_func_no_topics. by rewrite topics_of_set_running.
Qed.

Lemma no_topics_no_subscribe_call_witness :
  exists a,
    attempts (run (endpoint, true) envs_reconnect module_heap 4
                (on_connect (coro 7) (__init__ None None None []))) !! 1 = Some a /\
    subscribe_calls (invocation a) = [] /\
    hooks_run (invocation a) = [coro 7].
Proof.
  eexists. split; [vm_compute; reflexivity|]. split.
  - apply (no_topics_no_subscribe_call (endpoint, true) envs_reconnect module_heap 4 1
             (on_connect (coro 7) (__init__ None None None []))).
    + reflexivity.
    + vm_compute; reflexivity.
  - reflexivity.
Defined.

(** X5. When the batched subscribe call faults, the invocation of [run]
    ends with that fault: the call was made once, no connect hook is
    invoked, the reader is not awaited, the flag is false afterwards and the
    transport is released with the flag false. *)
Theorem subscribe_fault_aborts_handshake
    (args : string * bool) (env : Env) (h : gmap nat (list string))
    (self : EventRpcClient) (c : WebSocketRpcClient) (e : exn) :
  aenter env = Returned (Some c) ->
  topics_of self h <> [] ->
  remote_subscribe env (topics_of self h) = Raised e ->
  (run_func args env h self).1.1 = Raised e /\
  subscribe_calls (run_func args env h self).2 = [topics_of self h] /\
  hooks_run (run_func args env h self).2 = [] /\
  reader_waits (run_func args env h self).2 = [] /\
  releases (run_func args env h self).2 = [false] /\
  _running (run_func args env h self).1.2 = false.
Proof.
  intros Ha Hne Hsub.
  rewrite (run_func_subscribe_fault args env h self c e Ha Hne Hsub).
  rewrite run_handlers_trace. by destruct e.
Qed.

Lemma subscribe_fault_aborts_handshake_witness :
  hooks_run (run_func (endpoint, true) env_subscribe_fault docstring_heap
               (docstring_client None)).2 = [] /\
  (run_func (endpoint, true) env_subscribe_fault docstring_heap
     (docstring_client None)).1.1 = Raised WebSocketException.
Proof.
  destruct (subscribe_fault_aborts_handshake (endpoint, true) env_subscribe_fault
              docstring_heap (docstring_client None) server WebSocketException)
    as (Hend & _ & Hhooks & _).
  - reflexivity.
  - discriminate.
  - reflexivity.
  - split; [exact Hhooks | exact Hend].
Defined.

Lemma app_assoc_3 {A} (l1 l2 l3 rest : list A) :
  (l1 ++ l2 ++ l3) ++ rest = l1 ++ l2 ++ l3 ++ rest.
Proof. by rewrite <- !app_assoc. Qed.

(** X6. When a connect hook faults, the reader is not awaited, even if the
    caller asked to wait on it: the invocation of [run] ends with the fault
    of the hook that faults first in time, the transport is released and
    the flag is false afterwards. *)
Theorem hook_fault_skips_reader
    (args : string * bool) (env : Env) (h : gmap nat (list string))
    (self : EventRpcClient) (c : WebSocketRpcClient) (e : exn) (rest : list exn) :
  aenter env = Returned (Some c) ->
  (topics_of self h = [] \/
   remote_subscribe env (topics_of self h) = Returned tt) ->
  hook_faults env (in_time_order env (_on_connect_callbacks self)) = e :: rest ->
  reader_waits (run_func args env h self).2 = [] /\
  (run_func args env h self).1.1 = Raised e /\
  releases (run_func args env h self).2 = [false] /\
  _running (run_func args env h self).1.2 = false.
Proof.
  intros Ha Hsub Hf.
  assert (Hend : gather_result env (_on_connect_callbacks self) = Raised e)
    by (unfold gather_result; by rewrite first_raised_hook_faults, Hf).
  split; [by rewrite (run_func_reader_waits args env h self c Ha Hsub), Hend|].
  split.
  - rewrite (run_func_handshake args env h self c Ha Hsub). cbn zeta. cbn [fst].
    by rewrite Hend.
  - rewrite run_func_releases, Ha. split; [done|].
    by rewrite (run_func_connected args env h self c Ha).
Qed.

Lemma hook_fault_skips_reader_witness :
  reader_waits (run_func (endpoint, true) env_hooks_fault docstring_heap
                  (docstring_client None)).2 = [].
Proof.
  apply (hook_fault_skips_reader (endpoint, true) env_hooks_fault docstring_heap
           (docstring_client None) server (Exception "boom") [ConnectionClosed]).
  - reflexivity.
  - right. reflexivity.
  - reflexivity.
Defined.

(** X7. A fault of the reader, after a handshake that went through, comes
    out of [run] unchanged, whatever its class.  Before that it is logged,
    by the first [except] clause that matches: a closed connection as an
    error, another websocket fault as information, any other [Exception] as
    critical; an exception that is no [Exception] (a cancellation) is not
    logged at all. *)
Theorem reader_fault_reraised_and_logged
    (uri_ : string) (env : Env) (h : gmap nat (list string))
    (self : EventRpcClient) (c : WebSocketRpcClient) (e : exn) :
  aenter env = Returned (Some c) ->
  (topics_of self h = [] \/
   remote_subscribe env (topics_of self h) = Returned tt) ->
  hook_faults env (_on_connect_callbacks self) = [] ->
  reader env = Raised e ->
  (run_func (uri_, true) env h self).1.1 = Raised e /\
  logged (run_func (uri_, true) env h self).2 =
    [(INFO, "trying to connect"); (INFO, "connected to server")] ++
    match e with
    | ConnectionClosed => [(ERROR, "RPC connection lost")]
    | WebSocketException => [(INFO, "RPC connection failed")]
    | Exception _ | RetryError _ => [(CRITICAL, "RPC Uncaught Error")]
    | BaseException _ => []
    end /\
  _running (run_func (uri_, true) env h self).1.2 = false.
Proof.
  intros Ha Hsub Hf Hreader.
  assert (Hend : gather_result env (_on_connect_callbacks self) = Returned tt)
    by (by apply gather_result_no_faults).
  rewrite (run_func_handshake (uri_, true) env h self c Ha Hsub).
  cbn zeta. cbn [fst snd]. rewrite Hend, Hreader.
  split; [done|]. split; [|done].
  unfold logged. rewrite !omap_app.
  rewrite (omap_gather_none _ true) by done.
  rewrite run_handlers_trace.
  destruct (truthy (topics_of self h)); destruct e; reflexivity.
Qed.

Lemma reader_fault_reraised_and_logged_witness :
  logged (run_func (endpoint, true) env_cancelled docstring_heap
            (docstring_client None)).2
  = [(INFO, "trying to connect"); (INFO, "connected to server")] /\
  (run_func (endpoint, true) env_cancelled docstring_heap
     (docstring_client None)).1.1 = Raised (BaseException "CancelledError").
Proof.
  destruct (reader_fault_reraised_and_logged endpoint env_cancelled docstring_heap
              (docstring_client None) server (BaseException "CancelledError"))
    as (Hend & Hlog & _).
  - reflexivity.
  - right. reflexivity.
  - reflexivity.
  - reflexivity.
  - split; [exact Hlog | exact Hend].
Defined.

(** X8. When the handshake goes through and the caller asked to wait, the
    reader is awaited once, with the flag true, after the batched subscribe
    call and after every connect hook; the invocation then ends as the
    reader does. *)
Theorem reader_awaited_after_handshake
    (uri_ : string) (env : Env) (h : gmap nat (list string))
    (self : EventRpcClient) (c : WebSocketRpcClient) :
  aenter env = Returned (Some c) ->
  (topics_of self h = [] \/
   remote_subscribe env (topics_of self h) = Returned tt) ->
  hook_faults env (_on_connect_callbacks self) = [] ->
  (run_func (uri_, true) env h self).1.1 = reader env /\
  reader_waits (run_func (uri_, true) env h self).2 = [true] /\
  exists pre post,
    (run_func (uri_, true) env h self).2
      = pre ++ {| running_then := true; ev := WaitOnReader |} :: post /\
    hooks_run pre = _on_connect_callbacks self /\
    subscribe_calls pre = (if truthy (topics_of self h) then [topics_of self h] else []) /\
    hooks_run post = [] /\ subscribe_calls post = [].
Proof.
  intros Ha Hsub Hf.
  assert (Hend : gather_result env (_on_connect_callbacks self) = Returned tt)
    by (by apply gather_result_no_faults).
  split; [|split].
  - rewrite (run_func_handshake (uri_, true) env h self c Ha Hsub).
    cbn zeta. cbn [fst snd]. rewrite Hend. by destruct (reader env).
  - by rewrite (run_func_reader_waits (uri_, true) env h self c Ha Hsub), Hend.
  - rewrite (run_func_handshake (uri_, true) env h self c Ha Hsub).
    cbn zeta. cbn [fst snd]. rewrite Hend.
    eexists _, _. split.
    { symmetry. apply app_assoc_3. }
    rewrite !hooks_run_app, !subscribe_calls_app, hooks_run_gather,
      subscribe_calls_gather.
    destruct (truthy (topics_of self h));
      (destruct (reader env) as [[]|e]; [|rewrite run_handlers_trace; destruct e]);
      repeat split; reflexivity.
Qed.

Lemma reader_awaited_after_handshake_witness :
  reader_waits (run_func (endpoint, true) env_lost docstring_heap
                  (docstring_client None)).2 = [true] /\
  (run_func (endpoint, true) env_lost docstring_heap
     (docstring_client None)).1.1 = Raised ConnectionClosed.
Proof.
  destruct (reader_awaited_after_handshake endpoint env_lost docstring_heap
              (docstring_client None) server) as (Hend & Hwaits & _).
  - reflexivity.
  - right. reflexivity.
  - reflexivity.
  - split; [exact Hwaits | exact Hend].
Defined.

(** X9. Every invocation that [run] makes acquires the transport once, for
    the address it was given, and releases it once if and only if the
    acquisition went through, with the flag false by then. *)
Theorem acquired_once_released_once
    (args : string * bool) (envs : nat -> Env) (h : gmap nat (list string))
    (fuel k : nat) (self : EventRpcClient) (a : Attempt unit) :
  attempts (run args envs h fuel self) !! k = Some a ->
  acquisitions (invocation a) = [args.1] /\
  releases (invocation a) =
    match aenter (envs (S k)) with Returned _ => [false] | Raised _ => [] end.
Proof.
  intros Hk.
  destruct (run_attempt args envs h fuel self k a Hk) as (b & -> & _).
  split; [apply run_func_acquisitions | apply run_func_releases].
Qed.

Lemma acquired_once_released_once_witness :
  exists a,
    attempts (run (endpoint, true) envs_flaky docstring_heap 6
                (docstring_client None)) !! 2 = Some a /\
    acquisitions (invocation a) = [endpoint] /\
    releases (invocation a) = [false].
Proof.
  eexists. split; [vm_compute; reflexivity|].
  apply (acquired_once_released_once (endpoint, true) envs_flaky docstring_heap 6 2
           (docstring_client None)).
  vm_compute; reflexivity.
Defined.

(** ** The decorated [run], attempt after attempt *)

Section Retries.
Implicit Types (self : EventRpcClient) (h : gmap nat (list string)).
Implicit Types (env : Env) (args : string * bool) (kw : Retrying).

Lemma retrying_returned {Args T} kw (fn : Op Args T) fuel n a envs h self v :
  (fn a (envs n) h self).1.1 = Returned v ->
  retrying kw fn (S fuel) n a envs h self = once (fn a (envs n) h self) (Returned v).
Proof. intros Hv. cbn [retrying]. by rewrite Hv. Qed.

Lemma retrying_again {Args T} kw (fn : Op Args T) fuel n a envs h self e :
  (fn a (envs n) h self).1.1 = Raised e ->
  retry kw e = true ->
  stop_now (stop kw) n = false ->
  retrying kw fn (S fuel) n a envs h self =
    let res := fn a (envs n) h self in
    let rest := retrying kw fn fuel (S n) a envs h res.1.2 in
    {| result := result rest; self_after := self_after rest;
       attempts :=
         {| invocation := res.2; ended := res.1.1;
            backoff := [{| running_then := _running res.1.2;
                           ev := Sleep (wait kw) n |}] |}
         :: attempts rest |}.
Proof. intros He Hretry Hstop. cbn [retrying]. by rewrite He, Hretry, Hstop. Qed.

Lemma run_func_sleeps args env h self :
  sleeps (run_func args env h self).2 = [].
Proof.
  destruct (aenter env) as [[c|]|e] eqn:Ha.
  - destruct (subscribe_step_cases env self h) as [Hsub | (e & Hne & Hsub)].
    + rewrite (run_func_handshake args env h self c Ha Hsub). cbn zeta. cbn [snd].
      unfold sleeps. rewrite !omap_app.
      rewrite (omap_gather_none _ true) by done.
      destruct (truthy (topics_of self h));
        destruct (gather_result _ _) as [[]|e];
        [ destruct (args.2); [destruct (reader env) as [[]|e]|] | |
          destruct (args.2); [destruct (reader env) as [[]|e]|] | ];
        rewrite ?run_handlers_trace; try destruct e; reflexivity.
    + rewrite (run_func_subscribe_fault args env h self c e Ha Hne Hsub).
      rewrite run_handlers_trace. by destruct e.
  - by rewrite (run_func_null args env h self Ha).
  - by rewrite (run_func_not_acquired args env h self e Ha).
Qed.

(** An invocation that returns got past the acquisition, so it cleared the
    flag. *)
Lemma run_func_returned_idle args env h self v :
  (run_func args env h self).1.1 = Returned v ->
  _running (run_func args env h self).1.2 = false.
Proof.
  destruct (aenter env) as [[c|]|e] eqn:Ha.
  - by rewrite (run_func_connected _ _ _ _ c Ha).
  - by rewrite (run_func_null _ _ _ _ Ha).
  - by rewrite (run_func_not_acquired _ _ _ _ e Ha).
Qed.

Lemma retrying_until_success kw args envs h self :
  stop kw = stop_never ->
  forall n fuel start b,
    (forall i, start <= i < start + n ->
       exists e, (run_func args (envs i) h self).1.1 = Raised e /\ retry kw e = true) ->
    (run_func args (envs (start + n)) h self).1.1 = Returned tt ->
    n < fuel ->
    result (retrying kw run_func fuel start args envs h (set_running b self))
      = Some (Returned tt) /\
    length (attempts (retrying kw run_func fuel start args envs h (set_running b self)))
      = S n /\
    sleeps (trace_of (retrying kw run_func fuel start args envs h (set_running b self)))
      = seq start n /\
    _running (self_after (retrying kw run_func fuel start args envs h (set_running b self)))
      = false.
Proof.
  intros Hstop. induction n as [|n IH]; intros fuel start b Hfail Hok Hfuel.
  - destruct fuel as [|fuel]; [lia|].
    rewrite Nat.add_0_r in Hok.
    rewrite (retrying_returned kw run_func fuel start args envs h _ tt)
      by (by rewrite run_func_end_flag).
    unfold once, trace_of. cbn.
    rewrite !app_nil_r. repeat split.
    + apply run_func_sleeps.
    + apply (run_func_returned_idle _ _ _ _ tt). by rewrite run_func_end_flag.
  - destruct fuel as [|fuel]; [lia|].
    destruct (Hfail start ltac:(lia)) as (e & He & Hretry).
    rewrite (retrying_again kw run_func fuel start args envs h _ e)
      by (rewrite ?run_func_end_flag, ?Hstop; done).
    cbn zeta.
    destruct (run_func_self args (envs start) h (set_running b self)) as [b' Hb'].
    rewrite Hb', set_running_twice.
    destruct (IH fuel (S start) b') as (H1 & H2 & H3 & H4).
    + intros i Hi. apply Hfail. lia.
    + by replace (S start + n) with (start + S n) by lia.
    + lia.
    + cbn [result attempts self_after]. repeat split; [done | by cbn; rewrite H2 | | done].
      unfold trace_of in *. cbn [attempts map concat invocation backoff].
      unfold sleeps in *. rewrite !omap_app.
      fold (sleeps (run_func args (envs start) h (set_running b self)).2).
      rewrite run_func_sleeps, H3. reflexivity.
Qed.

Lemma retrying_while_failing kw args envs h self :
  stop kw = stop_never ->
  (forall i, exists e, (run_func args (envs i) h self).1.1 = Raised e /\ retry kw e = true) ->
  forall fuel start b,
    result (retrying kw run_func fuel start args envs h (set_running b self)) = None /\
    length (attempts (retrying kw run_func fuel start args envs h (set_running b self)))
      = fuel.
Proof.
  intros Hstop Hfail. induction fuel as [|fuel IH]; intros start b; [done|].
  destruct (Hfail start) as (e & He & Hretry).
  rewrite (retrying_again kw run_func fuel start args envs h _ e)
    by (rewrite ?run_func_end_flag, ?Hstop; done).
  cbn zeta.
  destruct (run_func_self args (envs start) h (set_running b self)) as [b' Hb'].
  rewrite Hb', set_running_twice.
  destruct (IH (S start) b') as [H1 H2].
  cbn [result attempts]. split; [done | by cbn; rewrite H2].
Qed.

Lemma retrying_backoff_idle kw args envs h :
  forall fuel n self k (a : Attempt unit),
    _running self = false ->
    attempts (retrying kw run_func fuel n args envs h self) !! k = Some a ->
    Forall (fun o => running_then o = false) (backoff a).
Proof.
  induction fuel as [|fuel IH]; intros n self k a Hr Hk; [done|].
  cbn [retrying] in Hk.
  assert (Honce : forall r : outcome unit,
             attempts (once (run_func args (envs n) h self) r) !! k = Some a ->
             Forall (fun o => running_then o = false) (backoff a)).
  { intros r Hr'. destruct k as [|k]; [|done].
    cbn in Hr'. inversion Hr'; subst a. constructor. }
  destruct ((run_func args (envs n) h self).1.1) as [v|e]; [by eapply Honce|].
  destruct (retry kw e); [|by eapply Honce].
  destruct (stop_now (stop kw) n); [by eapply Honce|].
  destruct k as [|k]; cbn in Hk.
  - inversion Hk; subst a. cbn. constructor; [|constructor].
    cbn. by apply run_func_idle.
  - eapply (IH (S n) _ k a); [|exact Hk]. by apply run_func_idle.
Qed.

Lemma retrying_self kw args envs h self :
  forall fuel n b,
    exists b', self_after (retrying kw run_func fuel n args envs h (set_running b self))
               = set_running b' self.
Proof.
  induction fuel as [|fuel IH]; intros n b; [by exists b|].
  cbn [retrying].
  destruct (run_func_self args (envs n) h (set_running b self)) as [b1 Hb1].
  rewrite set_running_twice in Hb1.
  destruct ((run_func args (envs n) h (set_running b self)).1.1) as [v|e];
    [by exists b1|].
  destruct (retry kw e); [|by exists b1].
  destruct (stop_now (stop kw) n); [by exists b1|].
  cbn [self_after]. rewrite Hb1. apply IH.
Qed.
End Retries.

(** X10. With a retry policy that never stops, if the first [n] invocations
    of [run] end with faults the policy retries and the next one returns,
    the decorated [run] returns: after [n + 1] invocations and [n] backoffs,
    one after each failed attempt, with the flag false. *)
Theorem retry_until_success
    (kw : Retrying) (args : string * bool) (envs : nat -> Env)
    (h : gmap nat (list string)) (self : EventRpcClient) (n fuel : nat) :
  _retry_config self = RetryKwargs kw ->
  stop kw = stop_never ->
  (forall i, 1 <= i < 1 + n ->
     exists e, (run_func args (envs i) h self).1.1 = Raised e /\ retry kw e = true) ->
  (run_func args (envs (1 + n)) h self).1.1 = Returned tt ->
  n < fuel ->
  result (run args envs h fuel self) = Some (Returned tt) /\
  length (attempts (run args envs h fuel self)) = S n /\
  sleeps (trace_of (run args envs h fuel self)) = seq 1 n /\
  _running (self_after (run args envs h fuel self)) = false.
Proof.
  intros Hc Hstop Hfail Hok Hfuel. unfold run, apply_retry. rewrite Hc.
  rewrite <- (set_running_same self) at 1 2 3 4.
  by apply retrying_until_success.
Qed.

Lemma retry_until_success_witness :
  result (run (endpoint, true) envs_flaky docstring_heap 6 (docstring_client None))
    = Some (Returned tt) /\
  sleeps (trace_of (run (endpoint, true) envs_flaky docstring_heap 6
                      (docstring_client None))) = [1; 2; 3].
Proof.
  destruct (retry_until_success
              {| wait := wait_random_exponential 45; stop := stop_never;
                 retry := retry_if_exception_type; reraise := false |}
              (endpoint, true) envs_flaky docstring_heap (docstring_client None) 3 6)
    as (Hres & _ & Hsleeps & _).
  - reflexivity.
  - reflexivity.
  - intros i Hi.
    destruct i as [|[|[|[|i]]]]; [lia | | | | lia].
    + exists (Exception "ConnectionRefusedError"). split; reflexivity.
    + exists (Exception "ConnectionRefusedError"). split; reflexivity.
    + exists ConnectionClosed. split; reflexivity.
  - reflexivity.
  - lia.
  - split; [exact Hres | exact Hsleeps].
Defined.

(** X11. With a retry policy that never stops, as long as every invocation
    ends with a fault the policy retries, the decorated [run] does not end:
    however many invocations are allowed, all of them are made and there is
    no result yet.  The default configuration is such a policy for every
    [Exception]. *)
Theorem run_retries_forever_while_failing
    (kw : Retrying) (args : string * bool) (envs : nat -> Env)
    (h : gmap nat (list string)) (self : EventRpcClient) (fuel : nat) :
  _retry_config self = RetryKwargs kw ->
  stop kw = stop_never ->
  (forall i, exists e,
     (run_func args (envs i) h self).1.1 = Raised e /\ retry kw e = true) ->
  result (run args envs h fuel self) = None /\
  length (attempts (run args envs h fuel self)) = fuel.
Proof.
  intros Hc Hstop Hfail. unfold run, apply_retry. rewrite Hc.
  rewrite <- (set_running_same self) at 1 2.
  by apply retrying_while_failing.
Qed.

Lemma run_retries_forever_while_failing_witness :
  result (run (endpoint, true) (fun _ => env_refused) module_heap 25
            (__init__ None None None [])) = None /\
  length (attempts (run (endpoint, true) (fun _ => env_refused) module_heap 25
                      (__init__ None None None []))) = 25.
Proof.
  apply (run_retries_forever_while_failing
           {| wait := wait_random_exponential 45; stop := stop_never;
              retry := retry_if_exception_type; reraise := false |}
           (endpoint, true) (fun _ => env_refused) module_heap
           (__init__ None None None []) 25).
  - reflexivity.
  - reflexivity.
  - intros i. exists (Exception "ConnectionRefusedError"). split; reflexivity.
Defined.

(** X12. A client that is not running when [run] is called is not running
    during any backoff: whatever tenacity sleeps after an attempt, it sleeps
    with the flag false. *)
Theorem backoff_with_flag_false
    (args : string * bool) (envs : nat -> Env) (h : gmap nat (list string))
    (fuel k : nat) (self : EventRpcClient) (a : Attempt unit) :
  _running self = false ->
  attempts (run args envs h fuel self) !! k = Some a ->
  Forall (fun o => running_then o = false) (backoff a).
Proof.
  intros Hr Hk. unfold run, apply_retry in Hk.
  destruct (_retry_config self) as [|kw].
  - destruct k as [|k]; [|done]. cbn in Hk. inversion Hk; subst a. constructor.
  - by apply (retrying_backoff_idle kw args envs h fuel 1 self k a).
Qed.

Lemma backoff_with_flag_false_witness :
  exists a,
    attempts (run (endpoint, true) envs_flaky docstring_heap 6
                (docstring_client None)) !! 2 = Some a /\
    backoff a = [{| running_then := false;
                    ev := Sleep (wait_random_exponential 45) 3 |}] /\
    Forall (fun o => running_then o = false) (backoff a).
Proof.
  eexists. split; [vm_compute; reflexivity|]. split; [reflexivity|].
  apply (backoff_with_flag_false (endpoint, true) envs_flaky docstring_heap 6 2
           (docstring_client None)).
  - reflexivity.
  - vm_compute; reflexivity.
Defined.

(** X13. [run] leaves the registry alone: however many attempts it makes
    and however they end, the client afterwards has the topic list, the
    callbacks, the connect hooks and the retry configuration it had before;
    only the flag may differ. *)
Theorem run_keeps_registry
    (args : string * bool) (envs : nat -> Env) (h : gmap nat (list string))
    (fuel : nat) (self : EventRpcClient) :
  exists b, self_after (run args envs h fuel self) = set_running b self.
Proof.
  unfold run, apply_retry. destruct (_retry_config self) as [|kw].
  - cbn [once self_after]. apply run_func_self.
  - destruct (retrying_self kw args envs h self fuel 1 (_running self)) as [b Hb].
    rewrite set_running_same in Hb. by exists b.
Qed.

(** X14. [start_client_async], when the first handshake goes through, returns
    after that one invocation without waiting on the reader; by then the
    transport has been released and the flag is false again, so a
    [subscribe] made after it returned is not ignored. *)
Theorem start_client_async_returns_after_handshake
    (server_uri : string) (envs : nat -> Env) (h : gmap nat (list string))
    (fuel : nat) (self : EventRpcClient) (c : WebSocketRpcClient) :
  aenter (envs 1) = Returned (Some c) ->
  (topics_of self h = [] \/
   remote_subscribe (envs 1) (topics_of self h) = Returned tt) ->
  hook_faults (envs 1) (_on_connect_callbacks self) = [] ->
  result (start_client_async server_uri envs h (S fuel) self) = Some (Returned tt) /\
  length (attempts (start_client_async server_uri envs h (S fuel) self)) = 1 /\
  hooks_run (trace_of (start_client_async server_uri envs h (S fuel) self))
    = _on_connect_callbacks self /\
  reader_waits (trace_of (start_client_async server_uri envs h (S fuel) self)) = [] /\
  releases (trace_of (start_client_async server_uri envs h (S fuel) self)) = [false] /\
  _running (self_after (start_client_async server_uri envs h (S fuel) self)) = false /\
  (forall t cb,
     _callbacks
       (subscribe t cb (self_after (start_client_async server_uri envs h (S fuel) self)) h).1
       !! t = Some cb).
Proof.
  intros Ha Hsub Hf.
  assert (Hend : gather_result (envs 1) (_on_connect_callbacks self) = Returned tt)
    by (by apply gather_result_no_faults).
  assert (Hret : (run_func (server_uri, false) (envs 1) h self).1.1 = Returned tt).
  { rewrite (run_func_handshake (server_uri, false) (envs 1) h self c Ha Hsub).
    cbn zeta. cbn [fst snd]. by rewrite Hend. }
  unfold start_client_async, start_client, run.
  rewrite (apply_retry_returns run_func (server_uri, false) envs h fuel self tt Hret).
  unfold once, trace_of. cbn [result attempts self_after map concat invocation backoff].
  rewrite !app_nil_r.
  pose proof (run_func_returned_idle (server_uri, false) (envs 1) h self tt Hret) as Hidle.
  repeat split.
  - by apply (run_func_hooks_run (server_uri, false) (envs 1) h self c).
  - by rewrite (run_func_reader_waits (server_uri, false) (envs 1) h self c Ha Hsub), Hend.
  - by rewrite run_func_releases, Ha.
  - exact Hidle.
  - intros t cb. rewrite (subscribe_idle t cb _ h Hidle). cbn.
    apply lookup_insert_eq.
Qed.

Lemma start_client_async_returns_after_handshake_witness :
  result (start_client_async endpoint (fun _ => env_lost) docstring_heap 1
            (docstring_client None)) = Some (Returned tt) /\
  reader_waits (trace_of (start_client_async endpoint (fun _ => env_lost)
                            docstring_heap 1 (docstring_client None))) = [].
Proof.
  destruct (start_client_async_returns_after_handshake endpoint (fun _ => env_lost)
              docstring_heap 0 (docstring_client None) server)
    as (Hres & _ & _ & Hwaits & _).
  - reflexivity.
  - right. reflexivity.
  - reflexivity.
  - split; [exact Hres | exact Hwaits].
Defined.

Lemma run_func_subscribe_calls (args : string * bool) (env : Env)
    (h : gmap nat (list string)) (self : EventRpcClient) (c : WebSocketRpcClient) :
  aenter env = Returned (Some c) ->
  topics_of self h <> [] ->
  subscribe_calls (run_func args env h self).2 = [topics_of self h].
Proof.
  intros Ha Hne.
  destruct (subscribe_step_cases env self h) as [Hsub | (e & _ & Hsub)].
  - rewrite (run_func_handshake args env h self c Ha Hsub). cbn zeta. cbn [snd].
    rewrite !subscribe_calls_app, subscribe_calls_gather.
    destruct (topics_of self h) as [|t ts]; [done|]. cbn [truthy].
    destruct (gather_result _ _) as [[]|e];
      [ destruct (args.2); [destruct (reader env) as [[]|e]|] | ];
      rewrite ?run_handlers_trace; try destruct e; reflexivity.
  - rewrite (run_func_subscribe_fault args env h self c e Ha Hne Hsub).
    rewrite run_handlers_trace. by destruct e.
Qed.

(** X15. The registry is frozen only while a connection is held.  After an
    invocation of [run] that got past the acquisition, however it ended, a
    [subscribe] is accepted again: its topic is appended and its callback
    recorded, and the next invocation that is handed a connection sends the
    longer topic sequence in its batched subscribe call. *)
Theorem subscribe_between_attempts_is_replayed
    (args : string * bool) (env1 env2 : Env) (h : gmap nat (list string))
    (self : EventRpcClient) (client1 : option WebSocketRpcClient)
    (c2 : WebSocketRpcClient) (t : string) (cb : Coroutine) :
  aenter env1 = Returned client1 ->
  aenter env2 = Returned (Some c2) ->
  let after1 := (run_func args env1 h self).1.2 in
  let after_sub := subscribe t cb after1 h in
  topics_of after_sub.1 after_sub.2 = topics_of self h ++ [t] /\
  _callbacks after_sub.1 !! t = Some cb /\
  subscribe_calls (run_func args env2 after_sub.2 after_sub.1).2
    = [topics_of self h ++ [t]].
Proof.
  intros Ha1 Ha2 after1 after_sub.
  assert (Hafter : after1 = set_running false self).
  { subst after1. destruct client1 as [c1|].
    - by rewrite (run_func_connected args env1 h self c1 Ha1).
    - by rewrite (run_func_null args env1 h self Ha1). }
  assert (Hsub : after_sub =
            (set_callbacks (<[t := cb]> (_callbacks after1)) after1,
             <[_topics after1 := topics_of after1 h ++ [t]]> h)).
  { subst after_sub. apply subscribe_idle. by rewrite Hafter. }
  assert (Hts : topics_of after_sub.1 after_sub.2 = topics_of self h ++ [t]).
  { rewrite Hsub. cbn [fst snd]. rewrite topics_of_set_callbacks.
    rewrite (topics_of_append after1 after1 h t eq_refl).
    by rewrite Hafter, topics_of_set_running. }
  split; [exact Hts|]. split.
  - rewrite Hsub. cbn. apply lookup_insert_eq.
  - rewrite (run_func_subscribe_calls args env2 _ _ c2 Ha2); rewrite Hts; [done|].
    by destruct (topics_of self h).
Qed.

Lemma subscribe_between_attempts_is_replayed_witness :
  subscribe_calls
    (run_func (endpoint, true) env_served
       (subscribe "steel" (coro 3)
          (run_func (endpoint, true) env_lost docstring_heap (docstring_client None)).1.2
          docstring_heap).2
       (subscribe "steel" (coro 3)
          (run_func (endpoint, true) env_lost docstring_heap (docstring_client None)).1.2
          docstring_heap).1).2
  = [["guns"; "germs"; "steel"]].
Proof.
  apply (subscribe_between_attempts_is_replayed (endpoint, true) env_lost env_served
           docstring_heap (docstring_client None) (Some server) server
           "steel" (coro 3)).
  - reflexivity.
  - reflexivity.
Defined.

(** ** The flag and the hooks, attempt by attempt *)

Section FlagAndHooks.
Implicit Types (self : EventRpcClient) (h : gmap nat (list string)).
Implicit Types (env : Env) (args : string * bool).

(** An invocation on a client that is not running gives the client back as
    it was. *)
Lemma run_func_idle_self args env h self :
  _running self = false -> (run_func args env h self).1.2 = self.
Proof.
  intros Hr. destruct (run_func_self args env h self) as [b Hb].
  pose proof (run_func_idle args env h self Hr) as Hidle.
  rewrite Hb in Hidle |- *. cbn in Hidle. subst b.
  by rewrite <- Hr, set_running_same.
Qed.

(** Each attempt of a decorated [run] on a client that is not running is
    [run_func] on that very client. *)
Lemma run_attempt_idle args envs h fuel self k (a : Attempt unit) :
  _running self = false ->
  attempts (run args envs h fuel self) !! k = Some a ->
  invocation a = (run_func args (envs (S k)) h self).2 /\
  ended a = (run_func args (envs (S k)) h self).1.1.
Proof.
  intros Hr Hk.
  destruct (apply_retry_attempt (fun s => s = self) run_func args envs h)
    with (3 := Hk) as (s & -> & Hi & He); [|done|done].
  intros env s ->. by apply run_func_idle_self.
Qed.

Lemma run_backoff_idle args envs h fuel self k (a : Attempt unit) :
  _running self = false ->
  attempts (run args envs h fuel self) !! k = Some a ->
  Forall (fun o => running_then o = false) (backoff a).
Proof.
  intros Hr Hk. unfold run, apply_retry in Hk.
  destruct (_retry_config self) as [|kw].
  - destruct k as [|k]; [|done]. cbn in Hk. inversion Hk; subst a. constructor.
  - by apply (retrying_backoff_idle kw args envs h fuel 1 self k a).
Qed.

Lemma gather_trace_stamps b env (l : list Coroutine) :
  Forall (fun o => running_then o = b) (gather_trace b env l).
Proof.
  unfold gather_trace. apply Forall_app. split; apply Forall_map, Forall_forall; done.
Qed.


(** The handshake happens with the flag the client has, from its first line
    on. *)
Lemma on_connection_stamps c env h self :
  Forall (fun o => running_then o = _running self) (_on_connection c env h self).2 /\
  head (_on_connection c env h self).2
    = Some {| running_then := _running self; ev := Log INFO "connected to server" |}.
Proof.
  rewrite on_connection_eq. cbn zeta.
  destruct (truthy _); [destruct (remote_subscribe _ _)|]; cbn [snd]; split;
    try reflexivity;
    repeat (constructor; [reflexivity|]);
    first [apply gather_trace_stamps | constructor].
Qed.

End FlagAndHooks.

(** C3, amended.  For a client that is not running when [run] is called, in
    every invocation that [run] makes, the first and every reconnect, the
    flag is true on one stretch and nowhere else.  It is false while
    connecting: at the first log line and at the acquisition.  It is true
    from the moment a connection is handed over, beginning with the line
    "connected to server" and so before the handshake: at the batched
    subscribe call, at the start of every connect hook, at the end of every
    hook that ends within the handshake, at the wait on the reader and at
    the line that logs a fault.  It is false again once the cleanup has run:
    at the release of the transport and during the backoff.  Without a
    connection, the acquisition having faulted or given no handle, the
    stretch is empty and the flag is never true. *)
Theorem C3_running_from_handshake_start
    (args : string * bool) (envs : nat -> Env) (h : gmap nat (list string))
    (fuel k : nat) (self : EventRpcClient) (a : Attempt unit) :
  _running self = false ->
  attempts (run args envs h fuel self) !! k = Some a ->
  exists live,
    invocation a =
      [{| running_then := false; ev := Log INFO "trying to connect" |};
       {| running_then := false; ev := Acquire args.1 |}]
      ++ live
      ++ match aenter (envs (S k)) with
         | Returned _ => [{| running_then := false; ev := Release |}]
         | Raised _ => []
         end /\
    Forall (fun o => running_then o = true) live /\
    (forall c, aenter (envs (S k)) = Returned (Some c) ->
       head live
       = Some {| running_then := true; ev := Log INFO "connected to server" |}) /\
    ((forall c, aenter (envs (S k)) <> Returned (Some c)) -> live = []) /\
    releases (invocation a) =
      match aenter (envs (S k)) with Returned _ => [false] | Raised _ => [] end /\
    Forall (fun o => running_then o = false) (backoff a).
Proof.
  intros Hr Hk.
  destruct (run_attempt_idle args envs h fuel self k a Hr Hk) as [Hi _].
  pose proof (run_backoff_idle args envs h fuel self k a Hr Hk) as Hback.
  rewrite Hi. rewrite run_func_releases.
  destruct (aenter (envs (S k))) as [[c|]|e] eqn:Ha.
  - rewrite (run_func_connected args (envs (S k)) h self c Ha). cbn zeta. cbn [snd].
    rewrite Hr.
    destruct (on_connection_stamps c (envs (S k)) h (set_running true self))
      as [Hstamps Hhead].
    destruct (_on_connection c (envs (S k)) h (set_running true self)) as [[r s] t].
    cbn [fst snd] in *.
    eexists (t ++ _ ++ _). split; [|split; [|split; [|split; [|split]]]].
    + cbn [app]. do 2 f_equal. symmetry. apply app_assoc_3.
    + apply Forall_app. split; [exact Hstamps|]. apply Forall_app. split.
      * destruct r as [[]|e]; [destruct (args.2)|]; repeat constructor.
      * destruct r as [[]|e];
          [destruct (args.2); [destruct (reader (envs (S k))) as [[]|e]|]|];
          rewrite ?run_handlers_trace; try destruct e; repeat constructor.
    + intros c' _. destruct t as [|o t]; [discriminate Hhead|].
      cbn in Hhead |- *. exact Hhead.
    + intros Hnone. by destruct (Hnone c).
    + reflexivity.
    + exact Hback.
  - rewrite (run_func_null args (envs (S k)) h self Ha). cbn [snd]. rewrite Hr.
    exists []. repeat split; try done; constructor.
  - rewrite (run_func_not_acquired args (envs (S k)) h self e Ha). cbn [snd].
    rewrite Hr. exists []. repeat split; try done; constructor.
Qed.

Lemma C3_witness :
  exists a live,
    attempts (run (endpoint, true) envs_reconnect docstring_heap 5
                (docstring_client None)) !! 0 = Some a /\
    invocation a =
      [{| running_then := false; ev := Log INFO "trying to connect" |};
       {| running_then := false; ev := Acquire endpoint |}]
      ++ live ++ [{| running_then := false; ev := Release |}] /\
    Forall (fun o => running_then o = true) live /\
    Forall (fun o => running_then o = false) (backoff a).
Proof.
  eexists.
  match goal with
  | |- exists live, ?lookup = Some ?a /\ _ =>
      assert (Hk : attempts (run (endpoint, true) envs_reconnect docstring_heap 5
                               (docstring_client None)) !! 0 = Some a)
        by (vm_compute; reflexivity)
  end.
  destruct (C3_running_from_handshake_start (endpoint, true) envs_reconnect
              docstring_heap 5 0 (docstring_client None) _ eq_refl Hk)
    as (live & Heq & Htrue & _ & _ & _ & Hback).
  exists live. split; [exact Hk|]. split; [exact Heq|]. split; [exact Htrue|].
  exact Hback.
Defined.


